(** * SimCLR training utilities: pair construction and the training driver

    Shallow embedding of [simclr/utils/simclr_train_v2.py].

    - Python integers are [Z].
    - A 1-D tensor is a list; a 2-D tensor is the list of its rows.
    - Tensor entries live in a scalar type given by the class [Scalar];
      it is instantiated with the reals (exact arithmetic) and with
      binary64 floats (executable).
    - A raised Python exception is the left injection of a sum. *)

From Stdlib Require Import Floats.PrimFloat.
From Stdlib Require Import String Ascii Decimal DecimalString.
From Stdlib Require Import ZArith List Bool Lia.
From Stdlib Require FinFun DecimalZ.
From Stdlib Require Import Reals Lra.
Import ListNotations.

Set Implicit Arguments.

(** ** Exceptions *)

Inductive exn : Type :=
| RuntimeError        (* torch: bad shape for view / cat / arange *)
| IndexError          (* torch: mask of the wrong shape; [t[0]] on an empty tensor *)
| TypeError           (* calling [None] *)
| ValueError          (* torch: [cat] of an empty list of tensors *)
| ZeroDivisionError   (* [n % 0] *)
| UnboundLocalError (name : string)
| External (tag : nat). (* raised inside a collaborator *)

Definition result (A : Type) : Type := (exn + A)%type.

Definition rbind {A B} (r : result A) (k : A -> result B) : result B :=
  match r with
  | inl e => inl e
  | inr a => k a
  end.

Notation "x <- r ;; k" := (rbind r (fun x => k))
  (at level 61, r at next level, right associativity).

Definition is_ok {A} (r : result A) : bool :=
  match r with inr _ => true | inl _ => false end.

(** ** Scalars *)

Class Scalar (T : Type) : Type := {
  s_zero : T;
  s_one : T;
  s_add : T -> T -> T;
  s_mul : T -> T -> T;
  s_div : T -> T -> T;
  s_sqrt : T -> T;
  s_max : T -> T -> T;
  (** [eps] default of [F.normalize], 1e-12 *)
  s_eps : T;
  (** [Tensor.bool()]: an entry is true when it is not zero *)
  s_nonzero : T -> bool;
  s_nonzero_one : s_nonzero s_one = true;
  s_nonzero_zero : s_nonzero s_zero = false
}.

Definition R_nonzero (x : R) : bool :=
  if Req_dec_T x 0%R then false else true.

#[export, refine] Instance R_Scalar : Scalar R := {|
  s_zero := 0%R;
  s_one := 1%R;
  s_add := Rplus;
  s_mul := Rmult;
  s_div := Rdiv;
  s_sqrt := sqrt;
  s_max := Rmax;
  s_eps := (/ 10 ^ 12)%R;
  s_nonzero := R_nonzero
|}.
Proof.
  - unfold R_nonzero. destruct (Req_dec_T 1 0) as [E | E]; [lra | reflexivity].
  - unfold R_nonzero. destruct (Req_dec_T 0 0) as [E | E]; [reflexivity | lra].
Defined.

(** [clamp_min] on floats: a NaN operand wins, otherwise the larger one. *)
Definition float_max (x y : float) : float :=
  if PrimFloat.is_nan x then x
  else if PrimFloat.is_nan y then y
  else if PrimFloat.ltb x y then y else x.

Definition float_nonzero (x : float) : bool := negb (PrimFloat.eqb x 0%float).

#[export] Instance float_Scalar : Scalar float := {
  s_zero := 0%float;
  s_one := 1%float;
  s_add := PrimFloat.add;
  s_mul := PrimFloat.mul;
  s_div := PrimFloat.div;
  s_sqrt := PrimFloat.sqrt;
  s_max := float_max;
  s_eps := 0x1.19799812dea11p-40%float;
  s_nonzero := float_nonzero;
  s_nonzero_one := eq_refl;
  s_nonzero_zero := eq_refl
}.

(** ** Tensors *)

Definition Tensor1 (A : Type) : Type := list A.
Definition Tensor2 (A : Type) : Type := list (list A).

Section TensorOps.
Context {A : Type}.

(** [t.shape], row by row *)
Definition shape2 (t : Tensor2 A) : list nat := map (@length A) t.

(** one row of [t[mask]] *)
Fixpoint select (row : list A) (mrow : list bool) : list A :=
  match row, mrow with
  | x :: row', b :: mrow' =>
      if b then x :: select row' mrow' else select row' mrow'
  | _, _ => []
  end.

Fixpoint select_rows (t : Tensor2 A) (mask : Tensor2 bool) : list A :=
  match t, mask with
  | r :: t', m :: mask' => select r m ++ select_rows t' mask'
  | _, _ => []
  end.

(** [t[mask]] for a boolean [mask]: the selected entries in row-major
    order; the mask must have the shape of [t] *)
Definition masked (t : Tensor2 A) (mask : Tensor2 bool) : result (Tensor1 A) :=
  if list_eq_dec Nat.eq_dec (shape2 t) (map (@length bool) mask)
  then inr (select_rows t mask)
  else inl IndexError.

Fixpoint chunks (n k : nat) (l : list A) : Tensor2 A :=
  match n with
  | O => []
  | S n' => firstn k l :: chunks n' k (skipn k l)
  end.

(** [l.view(n, -1)] *)
Definition view (n : nat) (l : Tensor1 A) : result (Tensor2 A) :=
  if (n =? 0)%nat then inl RuntimeError
  else if (length l mod n =? 0)%nat then inr (chunks n (length l / n) l)
  else inl RuntimeError.

Fixpoint zip_rows (a b : Tensor2 A) : Tensor2 A :=
  match a, b with
  | r :: a', s :: b' => (r ++ s) :: zip_rows a' b'
  | _, _ => []
  end.

(** [torch.cat([a, b], dim=1)] *)
Definition cat_dim1 (a b : Tensor2 A) : result (Tensor2 A) :=
  if (length a =? length b)%nat then inr (zip_rows a b) else inl RuntimeError.
End TensorOps.

(** [torch.arange(n)] *)
Definition arange (n : Z) : result (Tensor1 Z) :=
  if (n <? 0)%Z then inl RuntimeError
  else inr (map Z.of_nat (seq 0 (Z.to_nat n))).

(** [torch.cat([torch.arange(b) for _ in range(n)], dim=0)] *)
Definition tiled_ids (b n : Z) : result (Tensor1 Z) :=
  if (n <=? 0)%Z then inl ValueError
  else ids <- arange b ;; inr (concat (repeat ids (Z.to_nat n))).

(** [l.unsqueeze(0) == l.unsqueeze(1)] *)
Definition eq_matrix (l : Tensor1 Z) : Tensor2 bool :=
  map (fun a => map (fun b => Z.eqb b a) l) l.

(** [torch.eye(n, dtype=torch.bool)] *)
Definition eye (n : nat) : Tensor2 bool :=
  map (fun i => map (fun j => Nat.eqb i j) (seq 0 n)) (seq 0 n).

(** [~mask] *)
Definition tnot (m : Tensor2 bool) : Tensor2 bool := map (map negb) m.

(** [torch.zeros(n, dtype=torch.long)] *)
Definition zeros (n : nat) : Tensor1 Z := repeat 0%Z n.

Record Args (T : Type) : Type := {
  batch_size : Z;
  n_views : Z;
  temperature : T;
  train_epochs : Z;
  log_every_n_steps : Z;
  arch : string;
  fp16_precision : bool;
  disable_cuda : bool
}.

Section Loss.
Context {T : Type} `{Scalar T}.

(** [m.float()] *)
Definition to_float (m : Tensor2 bool) : Tensor2 T :=
  map (map (fun b : bool => if b then s_one else s_zero)) m.

(** [t.bool()] *)
Definition to_bool (t : Tensor2 T) : Tensor2 bool := map (map s_nonzero) t.

Definition sum_sq (row : list T) : T :=
  fold_left (fun acc x => s_add acc (s_mul x x)) row s_zero.

Definition l2norm (row : list T) : T := s_sqrt (sum_sq row).

(** [F.normalize(features, dim=1)]: every row divided by
    [max(norm, eps)] *)
Definition normalize (features : Tensor2 T) : Tensor2 T :=
  map (fun row => let d := s_max (l2norm row) s_eps in
                  map (fun x => s_div x d) row) features.

Definition dot (u v : list T) : T :=
  fold_left (fun acc p => s_add acc (s_mul (fst p) (snd p))) (combine u v) s_zero.

(** [torch.matmul(a, b.T)] *)
Definition matmul_T (a b : Tensor2 T) : Tensor2 T :=
  map (fun u => map (fun v => dot u v) b) a.

(** [logits / temperature] *)
Definition div_scalar (t : Tensor2 T) (tau : T) : Tensor2 T :=
  map (map (fun x => s_div x tau)) t.

(** the label mask after the diagonal has been removed: lines 14-16 and
    21-22, the part of [info_nce_loss] that does not read the features *)
Definition label_mask (args : Args T) : result (Tensor2 T) :=
  ids <- tiled_ids (batch_size args) (n_views args) ;;
  let labels := to_float (eq_matrix ids) in
  let mask := eye (length labels) in
  l <- masked labels (tnot mask) ;;
  view (length labels) l.

(** lines 13-32.  The label mask is finished first (line 22 before
    lines 18-20): these lines raise nothing and do not read the labels,
    and the mask keeps its number of rows. *)
Definition info_nce_loss (features : Tensor2 T) (args : Args T)
  : result (Tensor2 T * Tensor1 Z) :=
  labels <- label_mask args ;;
  let features := normalize features in
  let similarity_matrix := matmul_T features features in
  let mask := eye (length labels) in
  s <- masked similarity_matrix (tnot mask) ;;
  similarity_matrix <- view (length similarity_matrix) s ;;
  p <- masked similarity_matrix (to_bool labels) ;;
  positives <- view (length labels) p ;;
  n <- masked similarity_matrix (tnot (to_bool labels)) ;;
  negatives <- view (length similarity_matrix) n ;;
  logits <- cat_dim1 positives negatives ;;
  let labels := zeros (length logits) in
  let logits := div_scalar logits (temperature args) in
  inr (logits, labels).
End Loss.

(** ** Index sets used to state the layout of the logits *)

(** columns of row [i] of an [m]-column matrix that survive the removal
    of the diagonal *)
Definition off_diag (m i : nat) : list nat :=
  filter (fun j => negb (i =? j)%nat) (seq 0 m).

(** rows [i] and [j] are views of the same image of a batch of [b] *)
Definition same_source (b i j : nat) : bool := (j mod b =? i mod b)%nat.

Definition positive_cols (b m i : nat) : list nat :=
  filter (same_source b i) (off_diag m i).

Definition negative_cols (b m i : nat) : list nat :=
  filter (fun j => negb (same_source b i j)) (off_diag m i).

(** with two views of [b] images, the row holding the other view of the
    image of row [i] *)
Definition partner (b i : nat) : nat :=
  if (i <? b)%nat then (i + b)%nat else (i - b)%nat.

Section LossLayout.
Context {T : Type} `{Scalar T}.

(** [m.float()] on one entry *)
Definition of_bool (b : bool) : T := if b then s_one else s_zero.

(** entry [(i, j)] of the similarity matrix of line 20 *)
Definition sim (features : Tensor2 T) (i j : nat) : T :=
  dot (nth i (normalize features) []) (nth j (normalize features) []).

(** row [i] of the logits: the positives, then the negatives, each in
    increasing column order, divided by the temperature *)
Definition logits_row (features : Tensor2 T) (tau : T) (b m i : nat) : list T :=
  map (fun x => s_div x tau)
      (map (sim features i) (positive_cols b m i)
       ++ map (sim features i) (negative_cols b m i)).
End LossLayout.

(** ** String formatting *)

(** [str(z)] for a Python integer *)
Definition str_int (z : Z) : string := NilZero.string_of_int (Z.to_int z).

Definition zero_pad (width : nat) (digits : string) : string :=
  String.append
    (string_of_list_ascii (repeat "0"%char (width - String.length digits)))
    digits.

(** ['{:04d}'.format(z)]: zero padding to width 4, the sign included *)
Definition format_04d (z : Z) : string :=
  if (z <? 0)%Z
  then String.append "-" (zero_pad 3 (str_int (Z.abs z)))
  else zero_pad 4 (str_int z).

(** ['checkpoint_{:04d}.pth.tar'.format(epochs)] *)
Definition checkpoint_name (epochs : Z) : string :=
  String.append "checkpoint_" (String.append (format_04d epochs) ".pth.tar").

Definition str_bool (b : bool) : string := if b then "True" else "False".

(** the number a string of decimal digits stands for, leading zeros
    allowed *)
Definition digits_value (s : string) : Z :=
  match NilEmpty.uint_of_string s with
  | Some d => Z.of_uint d
  | None => 0%Z
  end.

(** reading back what [format_04d] printed *)
Definition parse_04d (s : string) : Z :=
  match s with
  | String c s' => if Ascii.eqb c "-" then (- digits_value s')%Z else digits_value s
  | EmptyString => 0%Z
  end.

(** ** The training driver *)

Section Driver.
Context {T : Type} `{Scalar T}.

(** What the collaborators carry around is opaque here. *)
Variables Batch ModelState OptState : Type.

Inductive py_value : Type :=
| VFloat (x : T)
| VInt (n : Z).

(** the [state] dictionary handed to [save_checkpoint] *)
Record Checkpoint : Type := {
  ck_epoch : Z;
  ck_arch : string;
  ck_state_dict : ModelState;
  ck_optimizer : OptState
}.

(** One constructor per call that leaves [train_simclr]. *)
Inductive event : Type :=
| EGradScaler (enabled : bool)
| EWandbInit (project : string) (config : Args T)
| EWandbWatch
| EBasicConfig (filename : string)
| ESaveConfigFile (dir : string) (config : Args T)
| ELoggingInfo (msg : string)
| EConcatViews (batch : Batch)      (* lines 52-53 *)
| EModel (batch : Batch)            (* line 56 *)
| ECriterion (logits : Tensor2 T) (labels : Tensor1 Z)
| EZeroGrad
| EBackward (loss : T)
| EScalerStep
| EScalerUpdate
| EAccuracy (logits : Tensor2 T) (labels : Tensor1 Z)
| EGetLr
| EWandbLog (metrics : list (string * py_value))
| ESchedulerStep (epoch_counter : Z) (* line 81, reached in this epoch *)
| ELoggingDebug (epoch_counter : Z) (loss : T) (top1 : T)
| EModelStateDict
| EOptimizerStateDict
| ESaveCheckpoint (state : Checkpoint) (is_best : bool) (filename : string)
| EWandbSave (filename : string).

(** The collaborators.  Each may raise, and what it returns may depend
    on every call made so far. *)
Record World : Type := {
  raises : list event -> event -> option exn;
  model_out : list event -> Batch -> Tensor2 T;
  criterion_out : list event -> Tensor2 T -> Tensor1 Z -> T;
  accuracy_out : list event -> Tensor2 T -> Tensor1 Z -> Tensor1 T * Tensor1 T;
  get_lr_out : list event -> Tensor1 T;
  state_dict_out : list event -> ModelState;
  optimizer_state_out : list event -> OptState
}.

(** The local variables of [train_simclr] that outlive a statement;
    [None] is an unbound name. *)
Record Locals : Type := {
  n_iter : Z;
  loss : option T;
  top1 : option (Tensor1 T);
  top5 : option (Tensor1 T)
}.

Definition init_locals : Locals :=
  {| n_iter := 0; loss := None; top1 := None; top5 := None |}.

(** What a piece of the driver leaves behind: its value or the exception
    it raised, the locals, and the calls it made, in order. *)
Record Run (A : Type) : Type := {
  out : result A;
  locals : Locals;
  emitted : list event
}.

(** A piece of the driver, run after the calls in the history. *)
Definition M (A : Type) : Type := list event -> Locals -> Run A.

Definition ret {A} (a : A) : M A :=
  fun _ l => {| out := inr a; locals := l; emitted := [] |}.

Definition raise {A} (e : exn) : M A :=
  fun _ l => {| out := inl e; locals := l; emitted := [] |}.

Definition bind {A B} (m : M A) (k : A -> M B) : M B :=
  fun h l =>
    let r := m h l in
    match out r with
    | inl e => {| out := inl e; locals := locals r; emitted := emitted r |}
    | inr a =>
        let r' := k a (h ++ emitted r) (locals r) in
        {| out := out r'; locals := locals r'; emitted := emitted r ++ emitted r' |}
    end.

Definition lift {A} (r : result A) : M A :=
  match r with inl e => raise e | inr a => ret a end.

Definition get_locals : M Locals :=
  fun _ l => {| out := inr l; locals := l; emitted := [] |}.

Definition put_locals (l : Locals) : M unit :=
  fun _ _ => {| out := inr tt; locals := l; emitted := [] |}.

Variable w : World.

(** a call to a collaborator, returning [value] of the history *)
Definition call {A} (ev : event) (value : list event -> A) : M A :=
  fun h l =>
    match raises w h ev with
    | Some e => {| out := inl e; locals := l; emitted := [ev] |}
    | None => {| out := inr (value h); locals := l; emitted := [ev] |}
    end.

Definition call_ (ev : event) : M unit := call ev (fun _ => tt).

Notation "x <~ m ;; k" := (bind m (fun x => k))
  (at level 61, m at next level, right associativity).
Notation "m ;;; k" := (bind m (fun _ => k))
  (at level 61, right associativity).

Fixpoint for_each {X} (xs : list X) (body : X -> M unit) : M unit :=
  match xs with
  | [] => ret tt
  | x :: xs' => body x ;;; for_each xs' body
  end.

(** reading a local name *)
Definition read {A} (name : string) (field : Locals -> option A) : M A :=
  l <~ get_locals ;;
  match field l with
  | Some a => ret a
  | None => raise (UnboundLocalError name)
  end.

(** [t[0]] *)
Definition index0 (t : Tensor1 T) : result T :=
  match t with
  | x :: _ => inr x
  | [] => inl IndexError
  end.

(** [n % k == 0] *)
Definition mod_is_zero (n k : Z) : result bool :=
  if (k =? 0)%Z then inl ZeroDivisionError else inr (n mod k =? 0)%Z.

(** the body of the batch loop, lines 52-77 *)
Definition train_step (args : Args T) (has_criterion : bool) (batch : Batch)
  : M unit :=
  call_ (EConcatViews batch) ;;;
  features <~ call (EModel batch) (fun h => model_out w h batch) ;;
  lo <~ lift (info_nce_loss features args) ;;
  let logits := fst lo in
  let labels := snd lo in
  loss_v <~ (if has_criterion
             then call (ECriterion logits labels)
                       (fun h => criterion_out w h logits labels)
             else raise TypeError) ;;
  l <~ get_locals ;;
  put_locals {| n_iter := n_iter l; loss := Some loss_v;
                top1 := top1 l; top5 := top5 l |} ;;;
  call_ EZeroGrad ;;;
  call_ (EBackward loss_v) ;;;
  call_ EScalerStep ;;;
  call_ EScalerUpdate ;;;
  l <~ get_locals ;;
  c <~ lift (mod_is_zero (n_iter l) (log_every_n_steps args)) ;;
  (if c : bool
   then
     acc <~ call (EAccuracy logits labels)
                 (fun h => accuracy_out w h logits labels) ;;
     put_locals {| n_iter := n_iter l; loss := loss l;
                   top1 := Some (fst acc); top5 := Some (snd acc) |} ;;;
     a1 <~ lift (index0 (fst acc)) ;;
     a5 <~ lift (index0 (snd acc)) ;;
     lr <~ call EGetLr (get_lr_out w) ;;
     lr0 <~ lift (index0 lr) ;;
     call_ (EWandbLog [("loss"%string, VFloat loss_v);
                       ("acc/top1"%string, VFloat a1);
                       ("acc/top5"%string, VFloat a5);
                       ("learning_rate"%string, VFloat lr0);
                       ("global_step"%string, VInt (n_iter l))])
   else ret tt) ;;;
  l <~ get_locals ;;
  put_locals {| n_iter := n_iter l + 1; loss := loss l;
                top1 := top1 l; top5 := top5 l |}.

(** the body of the epoch loop, lines 51-82 *)
Definition train_epoch (args : Args T) (has_criterion : bool)
           (epoch_counter : Z) (batches : list Batch) : M unit :=
  for_each batches (train_step args has_criterion) ;;;
  (if (10 <=? epoch_counter)%Z
   then call_ (ESchedulerStep epoch_counter)
   else ret tt) ;;;
  loss_v <~ read "loss" loss ;;
  t1 <~ read "top1" top1 ;;
  a1 <~ lift (index0 t1) ;;
  call_ (ELoggingDebug epoch_counter loss_v a1).

(** [train_loader e] is what iterating the loader yields in epoch [e];
    [has_criterion] is false when [criterion] is left at [None]. *)
Definition train_simclr (train_loader : nat -> list Batch) (args : Args T)
           (has_criterion : bool) : M unit :=
  call_ (EGradScaler (fp16_precision args)) ;;;
  call_ (EWandbInit "simclr" args) ;;;
  call_ EWandbWatch ;;;
  call_ (EBasicConfig "training.log") ;;;
  call_ (ESaveConfigFile "./wandb_run" args) ;;;
  l <~ get_locals ;;
  put_locals {| n_iter := 0; loss := loss l; top1 := top1 l; top5 := top5 l |} ;;;
  call_ (ELoggingInfo (String.append "Start SimCLR training for "
                         (String.append (str_int (train_epochs args)) " epochs."))) ;;;
  call_ (ELoggingInfo (String.append "Training with gpu: "
                         (String.append (str_bool (disable_cuda args)) "."))) ;;;
  for_each (seq 0 (Z.to_nat (train_epochs args)))
           (fun e => train_epoch args has_criterion (Z.of_nat e) (train_loader e)) ;;;
  call_ (ELoggingInfo "Training has finished.") ;;;
  let name := checkpoint_name (train_epochs args) in
  sd <~ call EModelStateDict (state_dict_out w) ;;
  od <~ call EOptimizerStateDict (optimizer_state_out w) ;;
  call_ (ESaveCheckpoint {| ck_epoch := train_epochs args; ck_arch := arch args;
                            ck_state_dict := sd; ck_optimizer := od |}
                         false name) ;;;
  call_ (ELoggingInfo "Model checkpoint and metadata has been saved.") ;;;
  call_ (EWandbSave name).

(** *** Reading a trace *)

(** the epochs in which [scheduler.step()] was called *)
Definition sched_epochs (evs : list event) : list Z :=
  flat_map (fun ev => match ev with ESchedulerStep e => [e] | _ => [] end) evs.

(** the epochs whose end-of-epoch debug line was reached *)
Definition debug_epochs (evs : list event) : list Z :=
  flat_map (fun ev => match ev with ELoggingDebug e _ _ => [e] | _ => [] end) evs.

(** the dictionaries handed to [wandb.log] *)
Definition wandb_logs (evs : list event) : list (list (string * py_value)) :=
  flat_map (fun ev => match ev with EWandbLog m => [m] | _ => [] end) evs.

Definition global_step (m : list (string * py_value)) : list Z :=
  flat_map (fun kv => if String.eqb (fst kv) "global_step"
                      then match snd kv with VInt n => [n] | _ => [] end
                      else []) m.

(** the ['global_step'] of every metric event *)
Definition logged_steps (evs : list event) : list Z :=
  flat_map global_step (wandb_logs evs).

Definition metric_keys : list string :=
  ["loss"; "acc/top1"; "acc/top5"; "learning_rate"; "global_step"]%string.

Definition checkpoints (evs : list event) : list (Checkpoint * bool * string) :=
  flat_map (fun ev => match ev with
                      | ESaveCheckpoint st best f => [(st, best, f)]
                      | _ => []
                      end) evs.

Definition wandb_saves (evs : list event) : list string :=
  flat_map (fun ev => match ev with EWandbSave f => [f] | _ => [] end) evs.

(** the batches that entered a step *)
Definition steps_begun (evs : list event) : list Batch :=
  flat_map (fun ev => match ev with EConcatViews b => [b] | _ => [] end) evs.

(** the batches the loader yields in epochs [0 .. k-1] *)
Definition batches_upto (train_loader : nat -> list Batch) (k : nat) : list Batch :=
  flat_map train_loader (seq 0 k).

(** a whole run, from an empty history *)
Definition run_train (train_loader : nat -> list Batch) (args : Args T)
           (has_criterion : bool) : Run unit :=
  train_simclr train_loader args has_criterion [] init_locals.
End Driver.

Arguments EGradScaler {T Batch ModelState OptState}.
Arguments EWandbInit {T Batch ModelState OptState}.
Arguments EWandbWatch {T Batch ModelState OptState}.
Arguments EBasicConfig {T Batch ModelState OptState}.
Arguments ESaveConfigFile {T Batch ModelState OptState}.
Arguments ELoggingInfo {T Batch ModelState OptState}.
Arguments EConcatViews {T Batch ModelState OptState}.
Arguments EModel {T Batch ModelState OptState}.
Arguments ECriterion {T Batch ModelState OptState}.
Arguments EZeroGrad {T Batch ModelState OptState}.
Arguments EBackward {T Batch ModelState OptState}.
Arguments EScalerStep {T Batch ModelState OptState}.
Arguments EScalerUpdate {T Batch ModelState OptState}.
Arguments EAccuracy {T Batch ModelState OptState}.
Arguments EGetLr {T Batch ModelState OptState}.
Arguments EWandbLog {T Batch ModelState OptState}.
Arguments ESchedulerStep {T Batch ModelState OptState}.
Arguments ELoggingDebug {T Batch ModelState OptState}.
Arguments EModelStateDict {T Batch ModelState OptState}.
Arguments EOptimizerStateDict {T Batch ModelState OptState}.
Arguments ESaveCheckpoint {T Batch ModelState OptState}.
Arguments EWandbSave {T Batch ModelState OptState}.

(** [start, start + 1, ..., start + len - 1] *)
Definition zseq (start : Z) (len : nat) : list Z :=
  map (fun i => (start + Z.of_nat i)%Z) (seq 0 len).

(** [n % k == 0] for [k] not zero *)
Definition divides (k n : Z) : bool := (n mod k =? 0)%Z.

(** [a] is what [b] starts with *)
Definition initial_segment {A} (a b : list A) : Prop :=
  exists rest, b = a ++ rest.

(** ** What is proved of the driver *)

Section DriverSpec.
Context {T : Type} `{Scalar T}.
Variables Batch ModelState OptState : Type.
Variable w : World (T := T) Batch ModelState OptState.

Local Abbreviation M := (M (T := T) Batch ModelState OptState).
Local Abbreviation event := (event (T := T) Batch ModelState OptState).
Local Abbreviation Locals := (Locals (T := T)).

(** [post m h l Q]: running [m] after history [h] with locals [l]
    ends in an outcome, locals and calls related by [Q]. *)
Definition post {A} (m : M A) (h : list event) (l : Locals)
           (Q : result A -> Locals -> list event -> Prop) : Prop :=
  Q (out (m h l)) (locals (m h l)) (emitted (m h l)).

(** what one step of the batch loop leaves behind, from locals [l] and
    with [K = log_every_n_steps] *)
Definition step_post (K : Z) (batch : Batch) (l : Locals)
           (o : result unit) (l' : Locals) (evs : list event) : Prop :=
  sched_epochs evs = [] /\ debug_epochs evs = [] /\
  checkpoints evs = [] /\ wandb_saves evs = [] /\
  steps_begun evs = [batch] /\
  Forall (fun m => map fst m = metric_keys) (wandb_logs evs) /\
  (logged_steps evs = [] \/ logged_steps evs = [n_iter l]) /\
  (logged_steps evs <> [] -> K <> 0%Z /\ (n_iter l mod K = 0)%Z) /\
  (o = inr tt ->
   n_iter l' = (n_iter l + 1)%Z /\ K <> 0%Z /\ loss l' <> None /\
   logged_steps evs = if (n_iter l mod K =? 0)%Z then [n_iter l] else []).

(** what the batch loop of one epoch leaves behind, over the batches [bs] *)
Definition loop_post (K : Z) (bs : list Batch) (l : Locals)
           (o : result unit) (l' : Locals) (evs : list event) : Prop :=
  sched_epochs evs = [] /\ debug_epochs evs = [] /\
  checkpoints evs = [] /\ wandb_saves evs = [] /\
  Forall (fun m => map fst m = metric_keys) (wandb_logs evs) /\
  (exists s, s <= length bs /\
             logged_steps evs = filter (divides K) (zseq (n_iter l) s) /\
             (o = inr tt -> s = length bs)) /\
  (o = inr tt ->
   steps_begun evs = bs /\
   n_iter l' = (n_iter l + Z.of_nat (length bs))%Z /\
   (bs = [] -> l' = l) /\
   (bs <> [] -> K <> 0%Z /\ loss l' <> None)).

(** what epoch [e] leaves behind; [c] tells whether [scheduler.step()]
    was called and [c'] whether the end-of-epoch debug line was reached *)
Definition epoch_post (K : Z) (e : Z) (bs : list Batch) (l : Locals)
           (o : result unit) (l' : Locals) (evs : list event) : Prop :=
  checkpoints evs = [] /\ wandb_saves evs = [] /\
  Forall (fun m => map fst m = metric_keys) (wandb_logs evs) /\
  (exists s, s <= length bs /\
             logged_steps evs = filter (divides K) (zseq (n_iter l) s) /\
             (o = inr tt -> s = length bs)) /\
  (exists c c' : bool,
      sched_epochs evs = (if c then [e] else []) /\
      debug_epochs evs = (if c' then [e] else []) /\
      (c = true -> (10 <= e)%Z) /\
      (c' = true -> c = (10 <=? e)%Z) /\
      (o = inr tt -> c' = true)) /\
  (o = inr tt ->
   steps_begun evs = bs /\
   n_iter l' = (n_iter l + Z.of_nat (length bs))%Z /\
   loss l' <> None /\
   (loss l = None -> bs <> []) /\
   (bs <> [] -> K <> 0%Z)).

(** what the epoch loop leaves behind when it starts with [n_iter = 0] *)
Definition epochs_post (K : Z) (train_loader : nat -> list Batch) (E : nat)
           (o : result unit) (l' : Locals) (evs : list event) : Prop :=
  checkpoints evs = [] /\ wandb_saves evs = [] /\
  Forall (fun m => map fst m = metric_keys) (wandb_logs evs) /\
  (exists s, s <= length (batches_upto train_loader E) /\
             logged_steps evs = filter (divides K) (zseq 0 s) /\
             (o = inr tt -> s = length (batches_upto train_loader E))) /\
  (exists k k',
      k' <= k <= S k' /\ k <= E /\
      sched_epochs evs = filter (Z.leb 10) (zseq 0 k) /\
      debug_epochs evs = zseq 0 k' /\
      (o = inr tt -> k' = E)) /\
  (o = inr tt ->
   steps_begun evs = batches_upto train_loader E /\
   n_iter l' = Z.of_nat (length (batches_upto train_loader E)) /\
   (1 <= E -> train_loader 0 <> [] /\ K <> 0%Z)).

(** the call of lines 87-93 *)
Definition final_checkpoint (args : Args T) (sd : ModelState) (od : OptState)
  : event :=
  ESaveCheckpoint {| ck_epoch := train_epochs args; ck_arch := arch args;
                     ck_state_dict := sd; ck_optimizer := od |}
                  false (checkpoint_name (train_epochs args)).

(** the message of line 94 *)
Definition saved_msg : string := "Model checkpoint and metadata has been saved.".

(** the calls made before the epoch loop, lines 35-48 *)
Definition setup_events (args : Args T) : list event :=
  [EGradScaler (fp16_precision args);
   EWandbInit "simclr" args;
   EWandbWatch;
   EBasicConfig "training.log";
   ESaveConfigFile "./wandb_run" args;
   ELoggingInfo (String.append "Start SimCLR training for "
                   (String.append (str_int (train_epochs args)) " epochs."));
   ELoggingInfo (String.append "Training with gpu: "
                   (String.append (str_bool (disable_cuda args)) "."))].

(** the calls between the epoch loop and [save_checkpoint] *)
Definition closing_events : list event :=
  [ELoggingInfo "Training has finished."; EModelStateDict; EOptimizerStateDict].

(** what a whole run leaves behind: the metric events, the scheduler
    steps, the step counter, and where the trace stands with respect to
    the checkpoint *)
Definition run_post (train_loader : nat -> list Batch) (args : Args T)
           (h : list event)
           (o : result unit) (l' : Locals) (evs : list event) : Prop :=
  let E := Z.to_nat (train_epochs args) in
  let K := log_every_n_steps args in
  let total := length (batches_upto train_loader E) in
  Forall (fun m => map fst m = metric_keys) (wandb_logs evs) /\
  (exists s, s <= total /\
             logged_steps evs = filter (divides K) (zseq 0 s) /\
             (o = inr tt -> s = total)) /\
  (exists k k',
      k' <= k <= S k' /\ k <= E /\
      sched_epochs evs = filter (Z.leb 10) (zseq 0 k) /\
      debug_epochs evs = zseq 0 k' /\
      (o = inr tt -> k' = E)) /\
  (o = inr tt -> n_iter l' = Z.of_nat total) /\
  ((checkpoints evs = [] /\ wandb_saves evs = [] /\ o <> inr tt) \/
   (exists pre sd od tail,
       evs = pre ++ final_checkpoint args sd od :: tail /\
       checkpoints pre = [] /\ wandb_saves pre = [] /\
       steps_begun pre = batches_upto train_loader E /\
       logged_steps pre = filter (divides K) (zseq 0 total) /\
       (1 <= E -> train_loader 0 <> [] /\ K <> 0%Z) /\
       ((tail = [] /\ o <> inr tt /\
         raises w (h ++ pre) (final_checkpoint args sd od) <> None) \/
        (raises w (h ++ pre) (final_checkpoint args sd od) = None /\
         ((tail = [ELoggingInfo saved_msg] /\ o <> inr tt) \/
          (tail = [ELoggingInfo saved_msg;
                   EWandbSave (checkpoint_name (train_epochs args))] /\
           (o = inr tt \/
            exists e, o = inl e /\
                      raises w (h ++ pre ++ [final_checkpoint args sd od;
                                             ELoggingInfo saved_msg])
                             (EWandbSave (checkpoint_name (train_epochs args)))
                      = Some e))))))).

(** [propagates m]: when a call made by [m] raises, [m] stops at that
    call with that exception. *)
Definition propagates {A} (m : M A) : Prop :=
  forall h l pre ev post e,
    emitted (m h l) = pre ++ ev :: post ->
    raises w (h ++ pre) ev = Some e ->
    out (m h l) = inl e /\ post = [].

(** collaborators that never raise and return what the driver can use:
    features of [n * b] rows, accuracies and learning rates that are not
    empty *)
Definition cooperative (args : Args T) (b n : nat) : Prop :=
  (forall h ev, raises w h ev = None) /\
  batch_size args = Z.of_nat b /\ n_views args = Z.of_nat n /\
  1 <= b /\ 1 <= n /\
  (forall h batch, length (model_out w h batch) = n * b) /\
  (forall h logits labels,
      fst (accuracy_out w h logits labels) <> [] /\
      snd (accuracy_out w h logits labels) <> []) /\
  (forall h, get_lr_out w h <> []).

(** [loss] and [top1] are bound once a step has run *)
Definition names_bound (l : Locals) : Prop :=
  (0 <= n_iter l)%Z /\
  ((0 < n_iter l)%Z ->
   loss l <> None /\ exists x xs, top1 l = Some (x :: xs)).

(** What the outline of a trace keeps of it: the calls that tell where a
    step, a metric event, a scheduler step and the end of an epoch
    stand with respect to each other. *)
Inductive mark : Type :=
| MStep (batch : Batch)        (* line 52: [batch] enters a step *)
| MUpdate                      (* line 63: [scaler.update()] *)
| MLog (steps : list Z)        (* line 69: [wandb.log], its ['global_step'] *)
| MSched (epoch_counter : Z)   (* line 81: [scheduler.step()] *)
| MDebug (epoch_counter : Z).  (* line 82: the end-of-epoch debug line *)

Definition outline (evs : list event) : list mark :=
  flat_map (fun ev => match ev with
                      | EConcatViews b => [MStep b]
                      | EScalerUpdate => [MUpdate]
                      | EWandbLog m => [MLog (global_step m)]
                      | ESchedulerStep e => [MSched e]
                      | ELoggingDebug e _ _ => [MDebug e]
                      | _ => []
                      end) evs.

(** the outline of the step made with the counter at [n]: the metric
    event comes after the optimizer update, when [K] divides [n] *)
Definition step_outline (K n : Z) (batch : Batch) : list mark :=
  [MStep batch; MUpdate] ++ (if divides K n then [MLog [n]] else []).

Fixpoint steps_outline (K n : Z) (bs : list Batch) : list mark :=
  match bs with
  | [] => []
  | b :: bs' => step_outline K n b ++ steps_outline K (n + 1) bs'
  end.

(** the outline of epoch [e], entered with the counter at [n]: the steps
    of its batches, then the scheduler step from epoch 10 on, then the
    debug line *)
Definition epoch_outline (K n e : Z) (bs : list Batch) : list mark :=
  steps_outline K n bs
  ++ (if (10 <=? e)%Z then [MSched e] else []) ++ [MDebug e].

(** the outline of [E] epochs: epoch [e] is entered with the counter at
    the number of batches of the epochs before it *)
Definition run_outline (K : Z) (train_loader : nat -> list Batch) (E : nat)
  : list mark :=
  flat_map (fun e => epoch_outline K
                       (Z.of_nat (length (batches_upto train_loader e)))
                       (Z.of_nat e) (train_loader e))
           (seq 0 E).
End DriverSpec.

Arguments MStep {Batch} batch.
Arguments MUpdate {Batch}.
Arguments MLog {Batch} steps.
Arguments MSched {Batch} epoch_counter.
Arguments MDebug {Batch} epoch_counter.

Arguments final_checkpoint {T Batch ModelState OptState} args sd od.
Arguments setup_events {T Batch ModelState OptState} args.
Arguments closing_events {T Batch ModelState OptState}.

(** ** Rounded arithmetic

    A floating-point division returns a rounding of the exact quotient.
    [rounded rnd (div_scalar t tau)], over the reals, is [t / tau]
    computed with such a division; the rounding [rnd] is only known not
    to reverse the order of two reals, as round-to-nearest does. *)
Definition rounded (rnd : R -> R) (t : Tensor2 R) : Tensor2 R :=
  map (map rnd) t.

Definition monotone (rnd : R -> R) : Prop :=
  forall x y : R, (x <= y)%R -> (rnd x <= rnd y)%R.

(** rounding down to an integer *)
Definition round_down (x : R) : R := IZR (Int_part x).

(** ** Inputs for the examples *)

(** [c * features] *)
Definition rescale (c : R) (features : Tensor2 R) : Tensor2 R :=
  map (map (Rmult c)) features.

(** [c * features]; over the reals this is [rescale c features] *)
Definition scale {T : Type} `{Scalar T} (c : T) (features : Tensor2 T)
  : Tensor2 T :=
  map (map (s_mul c)) features.

Definition demo_features : Tensor2 float :=
  [[1; 0]; [0; 1]; [1; 1]; [0; 2]]%float.

Definition demo_args (b n : Z) (tau : float) (epochs k : Z) : Args float :=
  {| batch_size := b; n_views := n; temperature := tau; train_epochs := epochs;
     log_every_n_steps := k; arch := "resnet18"; fp16_precision := false;
     disable_cuda := false |}.

(** A world in which the model returns [demo_features] for every batch
    and no collaborator raises, except [wandb.log] when [log_fails]. *)
Definition demo_world (log_fails : bool) : World (T := float) nat unit unit :=
  {| raises := fun _ ev =>
                 match ev with
                 | EWandbLog _ => if log_fails then Some (External 0) else None
                 | _ => None
                 end;
     model_out := fun _ _ => demo_features;
     criterion_out := fun _ _ _ => 0.5%float;
     accuracy_out := fun _ _ _ => ([100%float], [100%float]);
     get_lr_out := fun _ => [0.25%float];
     state_dict_out := fun _ => tt;
     optimizer_state_out := fun _ => tt |}.

(** two batches in every epoch *)
Definition demo_loader (e : nat) : list nat := [2 * e; 2 * e + 1].

Definition demo_metrics (step : Z) : list (string * py_value (T := float)) :=
  [("loss"%string, VFloat 0.5%float); ("acc/top1"%string, VFloat 100%float);
   ("acc/top5"%string, VFloat 100%float);
   ("learning_rate"%string, VFloat 0.25%float);
   ("global_step"%string, VInt step)].

(** arguments over the reals; only the sizes and the temperature matter *)
Definition demo_real_args (b n : Z) (tau : R) : Args R :=
  {| batch_size := b; n_views := n; temperature := tau; train_epochs := 1;
     log_every_n_steps := 1; arch := "resnet18"; fp16_precision := false;
     disable_cuda := false |}.

(** As [demo_world false], except that [save_checkpoint] raises. *)
Definition demo_world_save_fails : World (T := float) nat unit unit :=
  {| raises := fun _ ev =>
                 match ev with
                 | ESaveCheckpoint _ _ _ => Some (External 1)
                 | _ => None
                 end;
     model_out := fun _ _ => demo_features;
     criterion_out := fun _ _ _ => 0.5%float;
     accuracy_out := fun _ _ _ => ([100%float], [100%float]);
     get_lr_out := fun _ => [0.25%float];
     state_dict_out := fun _ => tt;
     optimizer_state_out := fun _ => tt |}.

(** A world whose model and optimizer states count the optimizer steps
    made so far; no collaborator raises. *)
Definition counting_world : World (T := float) nat nat nat :=
  {| raises := fun _ _ => None;
     model_out := fun _ _ => demo_features;
     criterion_out := fun _ _ _ => 0.5%float;
     accuracy_out := fun _ _ _ => ([100%float], [100%float]);
     get_lr_out := fun _ => [0.25%float];
     state_dict_out :=
       fun h => length (filter (fun ev => match ev with
                                          | EScalerStep => true
                                          | _ => false
                                          end) h);
     optimizer_state_out :=
       fun h => length (filter (fun ev => match ev with
                                          | EScalerUpdate => true
                                          | _ => false
                                          end) h) |}.

(** * Proofs *)

(** ** Lists: selection by a mask, chunking *)

Section ListFacts.
Context {A : Type}.

Lemma select_map {X} (g : X -> A) (h : X -> bool) (L : list X) :
  select (map g L) (map h L) = map g (filter h L).
Proof.
  induction L as [| x L IH]; simpl; [reflexivity |].
  destruct (h x); simpl; now rewrite IH.
Qed.

Lemma chunks_concat (k : nat) (rs : list (list A)) :
  Forall (fun r => length r = k) rs ->
  chunks (length rs) k (concat rs) = rs.
Proof.
  induction 1 as [| r rs Hr _ IH]; simpl; [reflexivity |].
  rewrite firstn_app, skipn_app, Hr, Nat.sub_diag.
  rewrite firstn_all2, skipn_all2 by lia.
  simpl. rewrite app_nil_r. now rewrite IH.
Qed.

Lemma length_concat_const (k : nat) (rs : list (list A)) :
  Forall (fun r => length r = k) rs ->
  length (concat rs) = length rs * k.
Proof.
  induction 1 as [| r rs Hr _ IH]; simpl; [reflexivity |].
  rewrite length_app, IH, Hr. reflexivity.
Qed.

Lemma view_concat (k : nat) (rs : list (list A)) :
  rs <> [] ->
  Forall (fun r => length r = k) rs ->
  view (length rs) (concat rs) = inr rs.
Proof.
  intros Hne Hk. unfold view.
  destruct (Nat.eqb_spec (length rs) 0) as [E | E].
  - destruct rs; [congruence | discriminate].
  - rewrite (length_concat_const Hk), Nat.mul_comm, Nat.Div0.mod_mul; simpl.
    rewrite Nat.div_mul by assumption.
    now rewrite chunks_concat.
Qed.

Lemma select_rows_tab {X Y} (I : list X) (L : X -> list Y)
      (g : X -> Y -> A) (h : X -> Y -> bool) :
  select_rows (map (fun i => map (g i) (L i)) I)
              (map (fun i => map (h i) (L i)) I)
  = concat (map (fun i => map (g i) (filter (h i) (L i))) I).
Proof.
  induction I as [| i I IH]; simpl; [reflexivity |].
  now rewrite select_map, IH.
Qed.

(** [t[mask]] on tabulated [t] and [mask]: the rows are filtered one
    by one and laid end to end. *)
Lemma masked_tab {X Y} (I : list X) (L : X -> list Y)
      (g : X -> Y -> A) (h : X -> Y -> bool) :
  masked (map (fun i => map (g i) (L i)) I)
         (map (fun i => map (h i) (L i)) I)
  = inr (concat (map (fun i => map (g i) (filter (h i) (L i))) I)).
Proof.
  unfold masked, shape2. rewrite !map_map.
  destruct (list_eq_dec _ _ _) as [_ | Hsh].
  - now rewrite select_rows_tab.
  - exfalso. apply Hsh. apply map_ext. intros i. now rewrite !length_map.
Qed.

(** [.view(n, -1)] gives the rows back when they all have [k] entries. *)
Lemma view_tab {X Y} (I : list X) (L : X -> list Y)
      (g : X -> Y -> A) (k n : nat) :
  n = length I -> I <> [] ->
  (forall i, In i I -> length (L i) = k) ->
  view n (concat (map (fun i => map (g i) (L i)) I))
  = inr (map (fun i => map (g i) (L i)) I).
Proof.
  intros -> Hne Hk.
  set (rs := map _ I).
  replace (length I) with (length rs) by (unfold rs; apply length_map).
  apply view_concat with (k := k).
  - unfold rs. destruct I; [congruence | discriminate].
  - unfold rs. apply Forall_forall. intros r Hr.
    apply in_map_iff in Hr as (i & <- & Hi).
    rewrite length_map. now apply Hk.
Qed.

Lemma zip_rows_tab {X} (I : list X) (f g : X -> list A) :
  zip_rows (map f I) (map g I) = map (fun i => f i ++ g i) I.
Proof.
  induction I as [| i I IH]; simpl; [reflexivity | now rewrite IH].
Qed.

Lemma map_nth_seq {B} (f : A -> B) (l : list A) (d : A) :
  map f l = map (fun i => f (nth i l d)) (seq 0 (length l)).
Proof.
  induction l as [| x l IH]; simpl; [reflexivity |].
  f_equal. rewrite <- seq_shift, map_map. exact IH.
Qed.

Lemma filter_none (p : A -> bool) (l : list A) :
  (forall x, In x l -> p x = false) -> filter p l = [].
Proof.
  induction l as [| x l IH]; simpl; intros Hp; [reflexivity |].
  rewrite (Hp x) by now left. apply IH. intros y Hy. apply Hp. now right.
Qed.

Lemma filter_filter (p q : A -> bool) (l : list A) :
  filter p (filter q l) = filter (fun x => q x && p x) l.
Proof.
  induction l as [| x l IH]; simpl; [reflexivity |].
  destruct (q x); simpl; [destruct (p x) |]; now rewrite IH.
Qed.

Lemma filter_split_length (p q : A -> bool) (l : list A) :
  length (filter p l)
  = length (filter (fun x => q x && p x) l)
    + length (filter (fun x => negb (q x) && p x) l).
Proof.
  induction l as [| x l IH]; simpl; [reflexivity |].
  destruct (q x), (p x); simpl; lia.
Qed.
End ListFacts.

(** ** Index arithmetic: source ids and the counting of positives *)

Lemma filter_diag_seq (p : nat -> bool) (i len start : nat) :
  start <= i < start + len -> p i = true ->
  filter (fun j => (i =? j)%nat && p j) (seq start len) = [i].
Proof.
  revert start. induction len as [| len IH]; intros start Hi Hp; [lia |].
  simpl. destruct (Nat.eqb_spec i start) as [E | E].
  - subst start. rewrite Hp. simpl. f_equal.
    apply filter_none. intros j Hj. apply in_seq in Hj.
    destruct (Nat.eqb_spec i j); [lia | reflexivity].
  - simpl. apply IH; [lia | assumption].
Qed.

Lemma off_diag_split (p : nat -> bool) (m i : nat) :
  i < m -> p i = true ->
  length (filter p (seq 0 m)) = S (length (filter p (off_diag m i))).
Proof.
  intros Hi Hp. unfold off_diag. rewrite filter_filter.
  rewrite (filter_split_length p (fun j => (i =? j)%nat)).
  rewrite filter_diag_seq by (assumption || lia). reflexivity.
Qed.

Lemma off_diag_length (m i : nat) : i < m -> length (off_diag m i) = m - 1.
Proof.
  intros Hi.
  pose proof (off_diag_split (fun _ => true) Hi eq_refl) as E.
  assert (Ht : forall l : list nat, filter (fun _ => true) l = l).
  { induction l as [| x l IH]; simpl; [reflexivity | now rewrite IH]. }
  rewrite !Ht, length_seq in E. lia.
Qed.

Lemma count_residue_block (b q r : nat) :
  r < b ->
  length (filter (fun j => (j mod b =? r)%nat) (seq (q * b) b)) = 1.
Proof.
  intros Hr.
  assert (E : seq (q * b) b = map (fun t => q * b + t) (seq 0 b)).
  { clear Hr. generalize (q * b) as s. induction b as [| b IH]; intros s.
    - reflexivity.
    - simpl. f_equal; [lia |].
      rewrite (IH (S s)), <- (seq_shift b 0), map_map.
      apply map_ext. intros; lia. }
  rewrite E, filter_map_swap, length_map.
  rewrite (filter_ext_in _ (fun t => (r =? t)%nat && true)).
  - rewrite filter_diag_seq by (reflexivity || lia). reflexivity.
  - intros t Ht. apply in_seq in Ht.
    rewrite Nat.add_comm, Nat.Div0.mod_add, Nat.mod_small by lia.
    rewrite andb_true_r. apply Nat.eqb_sym.
Qed.

Lemma count_residue (b n r : nat) :
  r < b ->
  length (filter (fun j => (j mod b =? r)%nat) (seq 0 (n * b))) = n.
Proof.
  intros Hr. induction n as [| n IH]; [reflexivity |].
  replace (S n * b) with (n * b + b) by lia.
  rewrite seq_app, filter_app, length_app, IH. simpl.
  rewrite count_residue_block by assumption. lia.
Qed.

Lemma positive_cols_length (b n i : nat) :
  1 <= b -> i < n * b -> length (positive_cols b (n * b) i) = n - 1.
Proof.
  intros Hb Hi. unfold positive_cols.
  pose proof (off_diag_split (same_source b i) Hi) as E.
  unfold same_source in E at 1. rewrite Nat.eqb_refl in E.
  specialize (E eq_refl). unfold same_source in E at 1.
  rewrite count_residue in E by (apply Nat.mod_upper_bound; lia).
  lia.
Qed.

Lemma negative_cols_length (b n i : nat) :
  1 <= b -> i < n * b -> length (negative_cols b (n * b) i) = n * b - n.
Proof.
  intros Hb Hi. unfold negative_cols.
  pose proof (filter_length (same_source b i) (off_diag (n * b) i)) as E.
  fold (positive_cols b (n * b) i) in E.
  rewrite positive_cols_length, off_diag_length in E by assumption.
  assert (1 <= n) by (destruct n; simpl in Hi; lia).
  assert (n <= n * b) by nia. lia.
Qed.

Lemma tiled_ids_ok (b n : nat) :
  1 <= n ->
  tiled_ids (Z.of_nat b) (Z.of_nat n)
  = inr (concat (repeat (map Z.of_nat (seq 0 b)) n)).
Proof.
  intros Hn. unfold tiled_ids, arange.
  destruct (Z.leb_spec (Z.of_nat n) 0); [lia |].
  destruct (Z.ltb_spec (Z.of_nat b) 0); [lia |].
  simpl. now rewrite !Nat2Z.id.
Qed.

Lemma tiled_length (b n : nat) :
  length (concat (repeat (map Z.of_nat (seq 0 b)) n)) = n * b.
Proof.
  induction n as [| n IH]; simpl; [reflexivity |].
  now rewrite length_app, IH, length_map, length_seq.
Qed.

Lemma tiled_nth (b n j : nat) :
  j < n * b ->
  nth j (concat (repeat (map Z.of_nat (seq 0 b)) n)) 0%Z = Z.of_nat (j mod b).
Proof.
  revert j. induction n as [| n IH]; intros j Hj; [simpl in Hj; lia |].
  simpl. destruct (Nat.lt_ge_cases j b) as [Hlt | Hge].
  - rewrite app_nth1 by now rewrite length_map, length_seq.
    change 0%Z with (Z.of_nat 0). rewrite map_nth, seq_nth by assumption.
    now rewrite Nat.mod_small.
  - rewrite app_nth2; rewrite length_map, length_seq; [| assumption].
    rewrite IH by (simpl in Hj; lia).
    f_equal. replace j with (j - b + 1 * b) at 2 by lia.
    now rewrite Nat.Div0.mod_add.
Qed.

(** ** Pair construction: what [info_nce_loss] returns *)

Section LossFacts.
Context {T : Type} `{Scalar T}.

Lemma nonzero_of_bool (b : bool) : s_nonzero (of_bool b) = b.
Proof. destruct b; [apply s_nonzero_one | apply s_nonzero_zero]. Qed.

Lemma seq_nonempty (m : nat) : 1 <= m -> seq 0 m <> [].
Proof. destruct m; [lia | discriminate]. Qed.

Lemma in_off_diag (m i j : nat) : In j (off_diag m i) -> j < m.
Proof.
  unfold off_diag. intros Hj. apply filter_In in Hj as [Hj _].
  apply in_seq in Hj. lia.
Qed.

(** The label matrix of lines 14-15, entry by entry. *)
Lemma label_matrix_tab (b n : nat) :
  to_float (eq_matrix (concat (repeat (map Z.of_nat (seq 0 b)) n)))
  = map (fun i => map (fun j => of_bool (same_source b i j)) (seq 0 (n * b)))
        (seq 0 (n * b)).
Proof.
  pose proof (tiled_length b n) as Hlen.
  pose proof (@tiled_nth b n) as Hnth.
  revert Hlen Hnth. generalize (concat (repeat (map Z.of_nat (seq 0 b)) n)).
  intros ids Hlen Hnth.
  unfold to_float, eq_matrix. rewrite map_map.
  rewrite (map_nth_seq _ ids 0%Z), Hlen.
  apply map_ext_in. intros i Hi. apply in_seq in Hi.
  rewrite map_map, (map_nth_seq _ ids 0%Z), Hlen.
  apply map_ext_in. intros j Hj. apply in_seq in Hj.
  rewrite !Hnth by lia.
  unfold same_source, of_bool.
  destruct (Z.eqb_spec (Z.of_nat (j mod b)) (Z.of_nat (i mod b))) as [E | E];
    destruct (Nat.eqb_spec (j mod b) (i mod b)); (reflexivity || lia).
Qed.

Lemma eye_tab (m : nat) :
  tnot (eye m)
  = map (fun i => map (fun j => negb (i =? j)%nat) (seq 0 m)) (seq 0 m).
Proof.
  unfold tnot, eye. rewrite map_map. apply map_ext. intros i.
  now rewrite map_map.
Qed.

(** The label mask once the diagonal is removed: row [i] holds, for
    every other column [j] in increasing order, whether [i] and [j]
    are views of the same image. *)
Lemma label_mask_tab (args : Args T) (b n : nat) :
  batch_size args = Z.of_nat b -> n_views args = Z.of_nat n ->
  1 <= b -> 1 <= n ->
  label_mask args
  = inr (map (fun i => map (fun j => of_bool (same_source b i j))
                           (off_diag (n * b) i))
             (seq 0 (n * b))).
Proof.
  intros Hb Hn Hb1 Hn1. unfold label_mask.
  rewrite Hb, Hn, tiled_ids_ok by assumption. simpl rbind.
  rewrite label_matrix_tab, length_map, length_seq, eye_tab.
  rewrite (@masked_tab T nat nat (seq 0 (n * b)) (fun _ => seq 0 (n * b))
                       (fun i j => of_bool (same_source b i j))
                       (fun i j => negb (i =? j)%nat)).
  simpl rbind.
  apply (@view_tab T nat nat (seq 0 (n * b)) (off_diag (n * b))
                   (fun i j => of_bool (same_source b i j)) (n * b - 1)).
  - now rewrite length_seq.
  - apply seq_nonempty. nia.
  - intros i Hi. apply in_seq in Hi. apply off_diag_length. lia.
Qed.

Lemma to_bool_tab {X Y} (I : list X) (L : X -> list Y) (h : X -> Y -> bool) :
  to_bool (map (fun i => map (fun j => of_bool (h i j)) (L i)) I)
  = map (fun i => map (h i) (L i)) I.
Proof.
  unfold to_bool. rewrite map_map. apply map_ext. intros i.
  rewrite map_map. apply map_ext. intros j. apply nonzero_of_bool.
Qed.

Lemma tnot_tab {X Y} (I : list X) (L : X -> list Y) (h : X -> Y -> bool) :
  tnot (map (fun i => map (h i) (L i)) I)
  = map (fun i => map (fun j => negb (h i j)) (L i)) I.
Proof.
  unfold tnot. rewrite map_map. apply map_ext. intros i. now rewrite map_map.
Qed.

Lemma matmul_T_tab (f : Tensor2 T) :
  matmul_T f f
  = map (fun i => map (fun j => dot (nth i f []) (nth j f []))
                      (seq 0 (length f)))
        (seq 0 (length f)).
Proof.
  unfold matmul_T. rewrite (map_nth_seq _ f []).
  apply map_ext. intros i. now rewrite (map_nth_seq _ f []).
Qed.

Lemma length_normalize (f : Tensor2 T) : length (normalize f) = length f.
Proof. unfold normalize. apply length_map. Qed.

(** The similarity matrix of line 20, entry by entry. *)
Lemma similarity_tab (features : Tensor2 T) (m : nat) :
  length features = m ->
  matmul_T (normalize features) (normalize features)
  = map (fun i => map (sim features i) (seq 0 m)) (seq 0 m).
Proof.
  intros <-. rewrite matmul_T_tab, length_normalize. reflexivity.
Qed.

(** What [info_nce_loss] computes for [n >= 1] views of [b >= 1] images
    on a feature tensor of [n * b] rows. *)
Lemma info_nce_loss_tab (features : Tensor2 T) (args : Args T) (b n : nat) :
  batch_size args = Z.of_nat b -> n_views args = Z.of_nat n ->
  1 <= b -> 1 <= n ->
  length features = n * b ->
  info_nce_loss features args
  = inr (map (logits_row features (temperature args) b (n * b)) (seq 0 (n * b)),
         zeros (n * b)).
Proof.
  intros Hb Hn Hb1 Hn1 Hlen. unfold info_nce_loss.
  rewrite (label_mask_tab args Hb Hn Hb1 Hn1). simpl rbind. cbv zeta.
  assert (Hne : seq 0 (n * b) <> []) by (apply seq_nonempty; nia).
  rewrite (similarity_tab features Hlen).
  rewrite !length_map, !length_seq, eye_tab.
  (* diagonal removal on the similarity matrix *)
  rewrite (@masked_tab T nat nat (seq 0 (n * b)) (fun _ => seq 0 (n * b))
                       (sim features) (fun i j => negb (i =? j)%nat)).
  simpl rbind. fold (off_diag (n * b)).
  rewrite (@view_tab T nat nat (seq 0 (n * b)) (off_diag (n * b))
                     (sim features) (n * b - 1));
    [| now rewrite length_seq | assumption
     | intros i Hi; apply in_seq in Hi; apply off_diag_length; lia].
  simpl rbind.
  (* positives *)
  rewrite (to_bool_tab (seq 0 (n * b)) (off_diag (n * b)) (same_source b)).
  rewrite (@masked_tab T nat nat (seq 0 (n * b)) (off_diag (n * b))
                       (sim features) (same_source b)).
  simpl rbind. fold (positive_cols b (n * b)).
  rewrite (@view_tab T nat nat (seq 0 (n * b)) (positive_cols b (n * b))
                     (sim features) (n - 1));
    [| now rewrite length_seq | assumption
     | intros i Hi; apply in_seq in Hi; apply positive_cols_length; lia].
  simpl rbind.
  (* negatives *)
  rewrite !length_map, !length_seq.
  rewrite (tnot_tab (seq 0 (n * b)) (off_diag (n * b)) (same_source b)).
  rewrite (@masked_tab T nat nat (seq 0 (n * b)) (off_diag (n * b))
                       (sim features) (fun i j => negb (same_source b i j))).
  simpl rbind. fold (negative_cols b (n * b)).
  rewrite (@view_tab T nat nat (seq 0 (n * b)) (negative_cols b (n * b))
                     (sim features) (n * b - n));
    [| now rewrite length_seq | assumption
     | intros i Hi; apply in_seq in Hi; apply negative_cols_length; lia].
  simpl rbind.
  (* concatenation, labels, temperature *)
  unfold cat_dim1. rewrite !length_map, Nat.eqb_refl. simpl rbind.
  rewrite zip_rows_tab, length_map, length_seq.
  unfold div_scalar, logits_row. now rewrite map_map.
Qed.
End LossFacts.

(** ** The driver: rules for reasoning about a run *)

Section DriverFacts.
Context {T : Type} `{Scalar T}.
Variables Batch ModelState OptState : Type.
Variable w : World (T := T) Batch ModelState OptState.

Local Abbreviation M := (M (T := T) Batch ModelState OptState).
Local Abbreviation event := (event (T := T) Batch ModelState OptState).
Local Abbreviation Locals := (Locals (T := T)).

Lemma post_ret {A} (a : A) (h : list event) (l : Locals) Q :
  Q (inr a) l [] -> post (ret a) h l Q.
Proof. exact (fun q => q). Qed.

Lemma post_raise {A} (e : exn) (h : list event) (l : Locals)
      (Q : result A -> _) :
  Q (inl e) l [] -> post (raise e) h l Q.
Proof. exact (fun q => q). Qed.

Lemma post_get (h : list event) (l : Locals) Q :
  Q (inr l) l [] ->
  post (get_locals (T := T) (Batch := Batch) (ModelState := ModelState)
                   (OptState := OptState)) h l Q.
Proof. exact (fun q => q). Qed.

Lemma post_put l' (h : list event) (l : Locals) Q :
  Q (inr tt) l' [] ->
  post (put_locals (Batch := Batch) (ModelState := ModelState)
                   (OptState := OptState) l') h l Q.
Proof. exact (fun q => q). Qed.

Lemma post_lift {A} (r : result A) (h : list event) (l : Locals)
      (Q : result A -> _) :
  Q r l [] -> post (lift r) h l Q.
Proof. destruct r; exact (fun q => q). Qed.

Lemma post_call {A} (ev : event) (v : list event -> A)
      (h : list event) (l : Locals) Q :
  (forall e, raises w h ev = Some e -> Q (inl e) l [ev]) ->
  (raises w h ev = None -> Q (inr (v h)) l [ev]) ->
  post (call w ev v) h l Q.
Proof.
  intros Hs Hn. unfold post, call.
  destruct (raises w h ev) as [e |]; simpl; [now apply Hs | now apply Hn].
Qed.

Lemma post_bind {A B} (m : M A) (k : A -> M B)
      (h : list event) (l : Locals) Q :
  post m h l (fun o l1 e1 =>
    match o with
    | inl e => Q (inl e) l1 e1
    | inr a => post (k a) (h ++ e1) l1 (fun o2 l2 e2 => Q o2 l2 (e1 ++ e2))
    end) ->
  post (bind m k) h l Q.
Proof.
  unfold post, bind. destruct (out (m h l)) as [e | a]; simpl; exact (fun q => q).
Qed.

Lemma post_weaken {A} (m : M A) h l
      (Q Q' : result A -> Locals -> list event -> Prop) :
  post m h l Q -> (forall o l' evs, Q o l' evs -> Q' o l' evs) -> post m h l Q'.
Proof. unfold post. intros q HQ. now apply HQ. Qed.

(** The loop rule: [I done l evs] holds after the iterations [done]
    have all succeeded; a failing iteration must establish [Q]. *)
Lemma post_for_each {X} (body : X -> M unit) (xs : list X)
      (I : list X -> Locals -> list event -> Prop)
      (h : list event) (l : Locals) Q :
  I [] l [] ->
  (forall d x rest l1 e1,
      xs = d ++ x :: rest -> I d l1 e1 ->
      post (body x) (h ++ e1) l1 (fun o l2 e2 =>
        match o with
        | inl e => Q (inl e) l2 (e1 ++ e2)
        | inr _ => I (d ++ [x]) l2 (e1 ++ e2)
        end)) ->
  (forall l1 e1, I xs l1 e1 -> Q (inr tt) l1 e1) ->
  post (for_each xs body) h l Q.
Proof.
  intros H0 Hstep Hend.
  assert (G : forall rest d l1 e1,
             xs = d ++ rest -> I d l1 e1 ->
             post (for_each rest body) (h ++ e1) l1
                  (fun o l2 e2 => Q o l2 (e1 ++ e2))).
  { induction rest as [| x rest IH]; intros d l1 e1 Hxs Hd.
    - simpl. apply post_ret. rewrite app_nil_r in *. subst d. now apply Hend.
    - simpl. apply post_bind.
      eapply post_weaken; [apply (Hstep d x rest l1 e1 Hxs Hd) |].
      intros [e | []] l2 e2 Ho; cbv beta iota in *; [exact Ho |].
      rewrite <- app_assoc.
      eapply post_weaken.
      + apply (IH (d ++ [x]) l2 (e1 ++ e2)); [| exact Ho].
        now rewrite <- app_assoc.
      + intros o l3 e3. cbv beta. now rewrite <- app_assoc. }
  specialize (G xs [] l [] eq_refl H0).
  rewrite app_nil_r in G. exact G.
Qed.

(** One rule, chosen by the head of the piece of driver to run. *)
Ltac wp_rule :=
  lazymatch goal with
  | |- post (bind _ _) _ _ _ => apply post_bind
  | |- post (call_ _ _) _ _ _ =>
      unfold call_; apply post_call; [intros ? ? | intros ?]
  | |- post (call _ _ _) _ _ _ => apply post_call; [intros ? ? | intros ?]
  | |- post (@ret _ _ _ _ _ _) _ _ _ => apply post_ret
  | |- post (@raise _ _ _ _ _ _) _ _ _ => apply post_raise
  | |- post (@lift _ _ _ _ _ _) _ _ _ => apply post_lift
  | |- post (@get_locals _ _ _ _) _ _ _ => apply post_get
  | |- post (@put_locals _ _ _ _ _) _ _ _ => apply post_put
  | |- post (@read _ _ _ _ _ _ _) _ _ _ => unfold read
  | |- post (if ?b then _ else _) _ _ _ => destruct b eqn:?
  | |- post (match ?x with Some _ => _ | None => _ end) _ _ _ =>
      destruct x eqn:?
  | |- match ?r with inl _ => _ | inr _ => _ end => destruct r eqn:?
  end.

Ltac wp := repeat (cbv beta iota; wp_rule); cbv beta iota.

(** *** One step of the batch loop *)

Lemma mod_is_zero_inr (n k : Z) (c : bool) :
  mod_is_zero n k = inr c -> k <> 0%Z /\ c = (n mod k =? 0)%Z.
Proof.
  unfold mod_is_zero. destruct (Z.eqb_spec k 0); [discriminate |].
  intros E. injection E as <-. now split.
Qed.

Lemma train_step_post (args : Args T) (hc : bool) (batch : Batch) h l :
  post (train_step w args hc batch) h l
       (step_post (log_every_n_steps args) batch l).
Proof.
  unfold train_step. wp.
  all: repeat match goal with
         | E : mod_is_zero _ _ = inr _ |- _ =>
             apply mod_is_zero_inr in E; destruct E as [? ?]
         end.
  all: subst; unfold step_post; simpl; repeat split; intros.
  all: unfold logged_steps, wandb_logs in *; simpl in *.
  all: try (left; reflexivity); try (right; reflexivity).
  all: try discriminate; try congruence; auto.
  all: try (apply Z.eqb_eq; congruence).
  all: try match goal with
         | E : _ = (?n mod ?k =? 0)%Z |- context [(?n mod ?k =? 0)%Z] =>
             rewrite <- E; reflexivity
         end.
Qed.

(** *** Projections of a trace made of two parts *)

Lemma sched_epochs_app (a b : list event) :
  sched_epochs (a ++ b) = sched_epochs a ++ sched_epochs b.
Proof. apply flat_map_app. Qed.

Lemma debug_epochs_app (a b : list event) :
  debug_epochs (a ++ b) = debug_epochs a ++ debug_epochs b.
Proof. apply flat_map_app. Qed.

Lemma wandb_logs_app (a b : list event) :
  wandb_logs (a ++ b) = wandb_logs a ++ wandb_logs b.
Proof. apply flat_map_app. Qed.

Lemma logged_steps_app (a b : list event) :
  logged_steps (a ++ b) = logged_steps a ++ logged_steps b.
Proof. unfold logged_steps. rewrite wandb_logs_app. apply flat_map_app. Qed.

Lemma checkpoints_app (a b : list event) :
  checkpoints (a ++ b) = checkpoints a ++ checkpoints b.
Proof. apply flat_map_app. Qed.

Lemma wandb_saves_app (a b : list event) :
  wandb_saves (a ++ b) = wandb_saves a ++ wandb_saves b.
Proof. apply flat_map_app. Qed.

Lemma steps_begun_app (a b : list event) :
  steps_begun (a ++ b) = steps_begun a ++ steps_begun b.
Proof. apply flat_map_app. Qed.

Lemma zseq_S (n0 : Z) (k : nat) :
  zseq n0 (S k) = zseq n0 k ++ [(n0 + Z.of_nat k)%Z].
Proof. unfold zseq. now rewrite seq_S, map_app. Qed.

Lemma zseq_app (n0 : Z) (a b : nat) :
  zseq n0 (a + b) = zseq n0 a ++ zseq (n0 + Z.of_nat a) b.
Proof.
  induction b as [| b IH].
  - now rewrite Nat.add_0_r, app_nil_r.
  - rewrite Nat.add_succ_r, !zseq_S, IH, app_assoc.
    do 2 f_equal. lia.
Qed.

(** *** The batch loop of one epoch *)

Lemma batch_loop_post (args : Args T) (hc : bool) (bs : list Batch) h l :
  post (for_each bs (train_step w args hc)) h l
       (loop_post (log_every_n_steps args) bs l).
Proof.
  apply post_for_each with
    (I := fun d l1 e1 =>
            sched_epochs e1 = [] /\ debug_epochs e1 = [] /\
            checkpoints e1 = [] /\ wandb_saves e1 = [] /\
            Forall (fun m => map fst m = metric_keys) (wandb_logs e1) /\
            logged_steps e1
            = filter (divides (log_every_n_steps args))
                     (zseq (n_iter l) (length d)) /\
            steps_begun e1 = d /\
            n_iter l1 = (n_iter l + Z.of_nat (length d))%Z /\
            (d = [] -> l1 = l) /\
            (d <> [] -> log_every_n_steps args <> 0%Z /\ loss l1 <> None)).
  - repeat split; try reflexivity; try constructor; try congruence; simpl; lia.
  - intros d x rest l1 e1 Hbs (I1 & I2 & I3 & I4 & I5 & I6 & I7 & I8 & I9 & I10).
    eapply post_weaken; [apply train_step_post |].
    intros o l2 e2 (S1 & S2 & S3 & S4 & S5 & S6 & S7 & S8 & S9).
    assert (Hlen : length bs = length d + S (length rest))
      by (rewrite Hbs, length_app; reflexivity).
    destruct o as [e | []].
    + unfold loop_post.
      rewrite sched_epochs_app, debug_epochs_app, checkpoints_app,
        wandb_saves_app, wandb_logs_app, logged_steps_app.
      rewrite I1, I2, I3, I4, S1, S2, S3, S4, I6.
      repeat split; try reflexivity; try discriminate.
      * now apply Forall_app.
      * destruct S7 as [E | E]; rewrite E.
        -- exists (length d). rewrite app_nil_r. repeat split; [lia | discriminate].
        -- exists (S (length d)). rewrite zseq_S, filter_app. simpl.
           destruct S8 as [HK Hmod]; [rewrite E; discriminate |].
           rewrite <- I8.
           replace (divides (log_every_n_steps args) (n_iter l1)) with true
             by (unfold divides; now rewrite Hmod).
           repeat split; [lia | discriminate].
    + specialize (S9 eq_refl). destruct S9 as (N1 & N2 & N3 & N4).
      rewrite sched_epochs_app, debug_epochs_app, checkpoints_app,
        wandb_saves_app, wandb_logs_app, logged_steps_app, steps_begun_app.
      rewrite I1, I2, I3, I4, S1, S2, S3, S4, S5, I6, I7, N4, length_app.
      simpl. rewrite Nat.add_1_r, zseq_S, filter_app. simpl.
      rewrite <- I8. unfold divides at 2.
      repeat split; try reflexivity; try assumption.
      * now apply Forall_app.
      * lia.
      * intros Hd. now destruct d.
  - intros l1 e1 (I1 & I2 & I3 & I4 & I5 & I6 & I7 & I8 & I9 & I10).
    unfold loop_post. repeat split; try assumption; try (now apply I10).
    exists (length bs). repeat split; [lia | assumption].
Qed.

Ltac proj_app :=
  rewrite ?sched_epochs_app, ?debug_epochs_app, ?checkpoints_app,
    ?wandb_saves_app, ?wandb_logs_app, ?logged_steps_app, ?steps_begun_app.

(** *** One epoch *)

Lemma train_epoch_post (args : Args T) (hc : bool) (e : Z) (bs : list Batch) h l :
  post (train_epoch w args hc e bs) h l
       (epoch_post (log_every_n_steps args) e bs l).
Proof.
  unfold train_epoch. apply post_bind.
  eapply post_weaken; [apply batch_loop_post |].
  intros o l1 e1 (L1 & L2 & L3 & L4 & L5 & (s & Ls & L6 & Lok) & L7).
  destruct o as [e0 | []].
  - unfold epoch_post. repeat split; try assumption; try discriminate.
    + exists s. repeat split; try assumption; discriminate.
    + exists false, false. rewrite L1, L2.
      repeat split; try reflexivity; discriminate.
  - specialize (Lok eq_refl). subst s.
    destruct (L7 eq_refl) as (B1 & B2 & B3 & B4).
    wp.
    all: unfold epoch_post; simpl; proj_app.
    all: rewrite ?L1, ?L2, ?L3, ?L4, ?L6, ?B1.
    all: unfold logged_steps, wandb_logs; simpl; rewrite ?app_nil_r.
    all: repeat match goal with
           | |- _ /\ _ => split
           | |- exists s : nat, _ => exists (length bs)
           end.
    all: try assumption; try reflexivity; try discriminate; try lia.
    all: try (intros _; repeat split; try assumption; try congruence).
    all: try (intros Hb; now apply B4).
    all: try (intros Hn Hbs; rewrite (B3 Hbs) in *; congruence).
    all: first
      [ solve [exists false, false; repeat split; intros;
               try reflexivity; try discriminate; try congruence;
               try (apply Z.leb_le; assumption)]
      | solve [exists true, false; repeat split; intros;
               try reflexivity; try discriminate; try congruence;
               try (apply Z.leb_le; assumption)]
      | solve [exists false, true; repeat split; intros;
               try reflexivity; try discriminate; try congruence;
               try (apply Z.leb_le; assumption)]
      | solve [exists true, true; repeat split; intros;
               try reflexivity; try discriminate; try congruence;
               try (apply Z.leb_le; assumption)] ].
Qed.

(** *** The epoch loop *)

Lemma seq_split_inv (n : nat) (d : list nat) (x : nat) (rest : list nat) :
  seq 0 n = d ++ x :: rest -> x = length d /\ length d < n.
Proof.
  intros E.
  assert (Hn : n = length d + S (length rest)).
  { rewrite <- (length_seq n 0), E, length_app. reflexivity. }
  split; [| lia].
  assert (Hs : nth (length d) (seq 0 n) 0 = 0 + length d)
    by (apply seq_nth; lia).
  rewrite E, nth_middle in Hs. exact Hs.
Qed.

Lemma batches_upto_S (train_loader : nat -> list Batch) (k : nat) :
  batches_upto train_loader (S k)
  = batches_upto train_loader k ++ train_loader k.
Proof.
  unfold batches_upto. rewrite seq_S, flat_map_app. simpl.
  now rewrite app_nil_r.
Qed.

Lemma batches_upto_mono (train_loader : nat -> list Batch) (a b : nat) :
  a <= b ->
  length (batches_upto train_loader a) <= length (batches_upto train_loader b).
Proof.
  induction 1 as [| b _ IH]; [lia |].
  rewrite batches_upto_S, length_app. lia.
Qed.

Lemma batches_upto_pos (train_loader : nat -> list Batch) (k : nat) :
  1 <= k -> train_loader 0 <> [] -> 1 <= length (batches_upto train_loader k).
Proof.
  intros Hk Hne.
  pose proof (batches_upto_mono train_loader Hk) as Hm.
  rewrite batches_upto_S in Hm. simpl in Hm.
  destruct (train_loader 0); [congruence | simpl in Hm; lia].
Qed.

Lemma epoch_loop_post (args : Args T) (hc : bool)
      (train_loader : nat -> list Batch) (E : nat) h l :
  n_iter l = 0%Z -> loss l = None ->
  post (for_each (seq 0 E)
          (fun e => train_epoch w args hc (Z.of_nat e) (train_loader e))) h l
       (epochs_post (log_every_n_steps args) train_loader E).
Proof.
  intros Hn0 Hloss.
  apply post_for_each with
    (I := fun d l1 e1 =>
            checkpoints e1 = [] /\ wandb_saves e1 = [] /\
            Forall (fun m => map fst m = metric_keys) (wandb_logs e1) /\
            logged_steps e1
            = filter (divides (log_every_n_steps args))
                     (zseq 0 (length (batches_upto train_loader (length d)))) /\
            steps_begun e1 = batches_upto train_loader (length d) /\
            n_iter l1 = Z.of_nat (length (batches_upto train_loader (length d))) /\
            sched_epochs e1 = filter (Z.leb 10) (zseq 0 (length d)) /\
            debug_epochs e1 = zseq 0 (length d) /\
            (d = [] -> loss l1 = None) /\
            (1 <= length d ->
             train_loader 0 <> [] /\ log_every_n_steps args <> 0%Z)).
  - repeat split; simpl; try reflexivity; try assumption; try lia; auto.
    all: simpl in *; lia.
  - intros d x rest l1 e1 Hxs (I1 & I2 & I3 & I4 & I5 & I6 & I7 & I8 & I9 & I10).
    apply seq_split_inv in Hxs as [-> Hlt].
    set (j := length d) in *.
    eapply post_weaken; [apply train_epoch_post |].
    intros o l2 e2
      (P1 & P2 & P3 & (s & Hs & P4 & Pok) & (c & c' & P5 & P6 & Pc & Pc' & Pd) & P7).
    assert (Hsched : c' = true \/ c = true ->
              filter (Z.leb 10) (zseq 0 j) ++ (if c then [Z.of_nat j] else [])
              = filter (Z.leb 10) (zseq 0 (S j))).
    { intros Hc. rewrite zseq_S, filter_app. simpl. f_equal.
      destruct c.
      - specialize (Pc eq_refl).
        destruct (Z.leb_spec 10 (Z.of_nat j)); [reflexivity | lia].
      - destruct Hc as [Hc | Hc]; [| discriminate].
        now rewrite <- (Pc' Hc). }
    assert (Hlog : logged_steps (e1 ++ e2)
                   = filter (divides (log_every_n_steps args))
                       (zseq 0 (length (batches_upto train_loader j) + s))).
    { rewrite logged_steps_app, I4, P4, I6, zseq_app, filter_app. reflexivity. }
    assert (Hmono : length (batches_upto train_loader (S j))
                    <= length (batches_upto train_loader E))
      by (apply batches_upto_mono; lia).
    rewrite batches_upto_S, length_app in Hmono.
    destruct o as [e | []].
    + unfold epochs_post. proj_app. rewrite I1, I2, P1, P2.
      repeat split; try reflexivity; try discriminate.
      * now apply Forall_app.
      * exists (length (batches_upto train_loader j) + s).
        rewrite <- logged_steps_app.
        repeat split; [lia | exact Hlog | discriminate].
      * rewrite I7, I8, P5, P6.
        destruct c'.
        -- exists (S j), (S j). rewrite Hsched by now left.
           rewrite (zseq_S 0 j). repeat split; try reflexivity; try lia; discriminate.
        -- destruct c.
           ++ exists (S j), j. rewrite Hsched by now right.
              rewrite app_nil_r.
              repeat split; try reflexivity; try lia; discriminate.
           ++ exists j, j. rewrite !app_nil_r.
              repeat split; try reflexivity; try lia; discriminate.
    + specialize (Pok eq_refl). specialize (Pd eq_refl). subst s c'.
      destruct (P7 eq_refl) as (Q1 & Q2 & Q3 & Q4 & Q5).
      proj_app. rewrite length_app. simpl length. rewrite Nat.add_1_r.
      fold j. rewrite batches_upto_S, length_app.
      rewrite I1, I2, P1, P2, I5, Q1, I7, I8, P5, P6, Hsched by now left.
      rewrite <- logged_steps_app, Hlog, (zseq_S 0 j).
      repeat split; try reflexivity.
      * now apply Forall_app.
      * rewrite Q2, I6. lia.
      * intros Hd. destruct d; discriminate.
      * destruct (Nat.eq_dec j 0) as [Hj | Hj]; [| apply I10; lia].
        replace (train_loader 0) with (train_loader j) by now rewrite Hj.
        apply Q4. apply I9. now apply length_zero_iff_nil.
      * destruct (Nat.eq_dec j 0) as [Hj | Hj]; [| apply I10; lia].
        apply Q5. apply Q4. apply I9. now apply length_zero_iff_nil.
  - intros l1 e1 (I1 & I2 & I3 & I4 & I5 & I6 & I7 & I8 & I9 & I10).
    rewrite length_seq in *.
    unfold epochs_post. repeat split; try assumption; try (now apply I10).
    + exists (length (batches_upto train_loader E)).
      repeat split; [lia | assumption].
    + exists E, E. repeat split; try assumption; lia.
Qed.

(** *** A whole run *)

Ltac before_loop :=
  unfold run_post; simpl;
  split; [constructor |];
  split; [exists 0; repeat split; [lia | discriminate] |];
  split; [exists 0, 0; repeat split; try lia; discriminate |];
  split; [discriminate |];
  left; repeat split; discriminate.

Lemma train_simclr_post (train_loader : nat -> list Batch) (args : Args T)
      (hc : bool) h l :
  loss l = None ->
  post (train_simclr w train_loader args hc) h l (run_post w train_loader args h).
Proof.
  intros Hloss. unfold train_simclr. wp.
  all: try before_loop.
  eapply post_weaken; [apply epoch_loop_post; [reflexivity | exact Hloss] |].
  intros o l1 e1
    (L1 & L2 & L3 & (s & Hs & L4 & Ls) & (k & k' & Hk & HkE & L5 & L6 & Lk) & L7).
  assert (HF : forall a b : list event,
             Forall (fun m => map fst m = metric_keys) (wandb_logs a) ->
             Forall (fun m => map fst m = metric_keys) (wandb_logs b) ->
             Forall (fun m => map fst m = metric_keys) (wandb_logs (a ++ b))).
  { intros a b Ha Hb. rewrite wandb_logs_app. now apply Forall_app. }
  destruct o as [e | []].
  - unfold run_post.
    split; [repeat (apply HF; [constructor |]); exact L3 |].
    proj_app. rewrite L1, L2, L4, L5, L6.
    unfold logged_steps, wandb_logs; simpl.
    split; [exists s; repeat split; [lia | discriminate] |].
    split; [exists k, k'; repeat split; try lia; discriminate |].
    split; [discriminate |].
    left; repeat split; discriminate.
  - specialize (Ls eq_refl). specialize (Lk eq_refl). subst s k'.
    destruct (L7 eq_refl) as (B1 & B2 & B3).
    assert (k = Z.to_nat (train_epochs args)) by lia. subst k.
    wp.
    all: unfold run_post.
    all: split; [repeat (apply HF; [try constructor |]);
                 rewrite ?app_nil_r; try constructor; exact L3 |].
    all: split;
      [proj_app; rewrite L4; unfold logged_steps, wandb_logs; simpl;
       rewrite ?app_nil_r;
       exists (length (batches_upto train_loader (Z.to_nat (train_epochs args))));
       repeat split; lia |].
    all: split;
      [proj_app; rewrite L5, L6; simpl; rewrite ?app_nil_r;
       exists (Z.to_nat (train_epochs args)), (Z.to_nat (train_epochs args));
       repeat split; lia |].
    all: split; [intros _; exact B2 |].
    1-3: left; proj_app; rewrite L1, L2; repeat split; discriminate.
    all: right; exists (setup_events args ++ e1 ++ closing_events).
    all: do 3 eexists.
    all: split; [unfold final_checkpoint, setup_events, closing_events; simpl;
                 rewrite <- ?app_assoc; simpl; reflexivity |].
    all: unfold setup_events, closing_events; proj_app; rewrite L1, L2, B1, L4.
    all: unfold logged_steps, wandb_logs; simpl; rewrite ?app_nil_r.
    all: do 5 (split; [first [reflexivity | assumption] |]).
    all: unfold final_checkpoint, saved_msg in *.
    all: rewrite <- ?app_assoc in *; simpl in *.
    all: first
      [ solve [left; repeat split; try discriminate; congruence]
      | solve [right; split; [assumption |]; left; split;
               [reflexivity | discriminate]]
      | solve [right; split; [assumption |]; right; split; [reflexivity |];
               right; eexists; split; [reflexivity | assumption]]
      | solve [right; split; [assumption |]; right; split; [reflexivity |];
               left; reflexivity] ].
Qed.

(** *** Exceptions are never caught *)

Lemma propagates_silent {A} (m : M A) :
  (forall h l, emitted (m h l) = []) -> propagates w m.
Proof.
  intros Hm h l pre ev post e E. rewrite Hm in E.
  now destruct pre.
Qed.

Lemma propagates_ret {A} (a : A) : propagates w (ret a).
Proof. now apply propagates_silent. Qed.

Lemma propagates_raise {A} (e : exn) : propagates w (raise (A := A) e).
Proof. now apply propagates_silent. Qed.

Lemma propagates_lift {A} (r : result A) : propagates w (lift r).
Proof. destruct r; [apply propagates_raise | apply propagates_ret]. Qed.

Lemma propagates_get :
  propagates w (get_locals (T := T) (Batch := Batch) (ModelState := ModelState)
                         (OptState := OptState)).
Proof. now apply propagates_silent. Qed.

Lemma propagates_put (l' : Locals) :
  propagates w (put_locals (Batch := Batch) (ModelState := ModelState)
                         (OptState := OptState) l').
Proof. now apply propagates_silent. Qed.

Lemma propagates_call {A} (ev : event) (v : list event -> A) :
  propagates w (call w ev v).
Proof.
  intros h l pre ev' post e E Hr. unfold call in *.
  assert (Hev : pre = [] /\ ev' = ev /\ post = []).
  { destruct (raises w h ev); simpl in E;
      destruct pre as [| x [| y pre]]; simpl in E; try discriminate;
      injection E as <- <-; auto. }
  destruct Hev as (-> & -> & ->). rewrite app_nil_r in Hr.
  rewrite Hr. now split.
Qed.

Lemma propagates_bind {A B} (m : M A) (k : A -> M B) :
  propagates w m -> (forall a, propagates w (k a)) -> propagates w (bind m k).
Proof.
  intros Hm Hk h l pre ev post e E Hr. unfold bind in *.
  destruct (out (m h l)) as [e0 | a] eqn:Ho; simpl in *.
  - destruct (Hm h l pre ev post e E Hr) as [Ho' ->].
    rewrite Ho in Ho'. injection Ho' as ->. now split.
  - apply app_eq_app in E as [mid [[E1 E2] | [E1 E2]]].
    + destruct mid as [| x mid]; simpl in E2.
      * rewrite app_nil_r in E1.
        apply (Hk a (h ++ emitted (m h l)) (locals (m h l)) [] ev post e).
        -- now rewrite <- E2.
        -- now rewrite app_nil_r, E1.
      * injection E2 as <- E2.
        destruct (Hm h l pre ev mid e E1 Hr) as [Ho' _].
        rewrite Ho in Ho'. discriminate.
    + subst pre. rewrite app_assoc in Hr.
      exact (Hk a _ _ mid ev post e E2 Hr).
Qed.

Lemma propagates_for_each {X} (body : X -> M unit) (xs : list X) :
  (forall x, propagates w (body x)) -> propagates w (for_each xs body).
Proof.
  intros Hb. induction xs as [| x xs IH]; simpl.
  - apply propagates_ret.
  - apply propagates_bind; [apply Hb | intros _; exact IH].
Qed.

Ltac propagates_go :=
  repeat first
    [ apply propagates_ret
    | apply propagates_raise
    | apply propagates_lift
    | apply propagates_get
    | apply propagates_put
    | apply propagates_call
    | apply propagates_for_each; intros
    | apply propagates_bind; [| intros]
    | match goal with
      | |- propagates w (if ?b then _ else _) => destruct b
      | |- propagates w (match ?x with Some _ => _ | None => _ end) => destruct x
      end ].

Lemma propagates_train_step (args : Args T) (hc : bool) (batch : Batch) :
  propagates w (train_step w args hc batch).
Proof. unfold train_step, call_. propagates_go. Qed.

Lemma propagates_train_epoch (args : Args T) (hc : bool) (e : Z) (bs : list Batch) :
  propagates w (train_epoch w args hc e bs).
Proof.
  unfold train_epoch, read, call_. propagates_go.
Qed.

Lemma propagates_train_simclr (train_loader : nat -> list Batch)
      (args : Args T) (hc : bool) :
  propagates w (train_simclr w train_loader args hc).
Proof.
  unfold train_simclr, call_. propagates_go.
Qed.

(** *** A loader that yields nothing in the first epoch *)

Lemma empty_first_epoch_post (train_loader : nat -> list Batch) (args : Args T)
      (hc : bool) h l :
  (1 <= train_epochs args)%Z ->
  train_loader 0 = [] ->
  loss l = None ->
  (forall h' ev, In ev (setup_events args) -> raises w h' ev = None) ->
  post (train_simclr w train_loader args hc) h l
       (fun o _ evs =>
          o = inl (UnboundLocalError "loss") /\ evs = setup_events args).
Proof.
  intros HE Hempty Hloss Hsetup. unfold train_simclr. wp.
  all: try match goal with
         | Hr : raises w _ _ = Some _ |- _ =>
             rewrite Hsetup in Hr by (simpl; auto 10); discriminate
         end.
  destruct (Z.to_nat (train_epochs args)) as [| k] eqn:Ek; [lia |].
  change (seq 0 (S k)) with (0 :: seq 1 k).
  cbn [for_each]. rewrite Hempty. unfold train_epoch. cbn [for_each].
  wp.
  all: try match goal with
         | Hb : (10 <=? Z.of_nat 0)%Z = true |- _ =>
             vm_compute in Hb; discriminate
         end.
  all: try (simpl in *; congruence).
  split; reflexivity.
Qed.

(** *** Runs that cannot complete, runs that must *)

Lemma post_conj {A} (m : M A) h l
      (Q1 Q2 : result A -> Locals -> list event -> Prop) :
  post m h l Q1 -> post m h l Q2 ->
  post m h l (fun o l' evs => Q1 o l' evs /\ Q2 o l' evs).
Proof. unfold post. now split. Qed.

(** a property of traces that holds of every iteration holds of the loop *)
Lemma post_for_each_all {X} (body : X -> M unit) (xs : list X)
      (P : list event -> Prop) (h : list event) (l : Locals) :
  P [] ->
  (forall a b, P a -> P b -> P (a ++ b)) ->
  (forall x h' l', post (body x) h' l' (fun _ _ evs => P evs)) ->
  post (for_each xs body) h l (fun _ _ evs => P evs).
Proof.
  intros Hnil Happ Hbody.
  apply post_for_each with (I := fun _ _ e1 => P e1).
  - exact Hnil.
  - intros d x rest l1 e1 _ He1.
    eapply post_weaken; [apply Hbody |].
    intros [e | []] l2 e2 He2; now apply Happ.
  - intros l1 e1 He1. exact He1.
Qed.

(** without a criterion a step raises before it binds [loss] *)
Lemma train_step_without_criterion (args : Args T) (batch : Batch) h l :
  post (train_step w args false batch) h l
       (fun o l' _ => o <> inr tt /\ l' = l).
Proof.
  unfold train_step. wp.
  all: split; [discriminate | reflexivity].
Qed.

Lemma batch_loop_without_criterion (args : Args T) (bs : list Batch) h l :
  post (for_each bs (train_step w args false)) h l
       (fun o l' _ => (bs <> [] -> o <> inr tt) /\ l' = l).
Proof.
  apply post_for_each with (I := fun d l1 _ => d = [] /\ l1 = l).
  - now split.
  - intros d x rest l1 e1 _ [_ ->].
    eapply post_weaken; [apply train_step_without_criterion |].
    intros [e | []] l2 e2 [Ho ->]; [| now elim Ho].
    split; [discriminate | reflexivity].
  - intros l1 e1 [-> ->]. split; [intros Hne; now elim Hne | reflexivity].
Qed.

Lemma train_epoch_without_criterion (args : Args T) (e : Z) (bs : list Batch) h l :
  loss l = None ->
  post (train_epoch w args false e bs) h l (fun o l' _ => o <> inr tt /\ l' = l).
Proof.
  intros Hloss. unfold train_epoch. apply post_bind.
  eapply post_weaken; [apply batch_loop_without_criterion |].
  intros [e0 | []] l1 e1 [Hne ->]; cbv beta iota.
  - split; [discriminate | reflexivity].
  - wp.
    all: try (split; [discriminate | reflexivity]).
    all: congruence.
Qed.

Lemma epoch_loop_without_criterion (args : Args T)
      (train_loader : nat -> list Batch) (E : nat) h l :
  loss l = None ->
  post (for_each (seq 0 E)
          (fun e => train_epoch w args false (Z.of_nat e) (train_loader e))) h l
       (fun o l' _ => (1 <= E -> o <> inr tt) /\ l' = l).
Proof.
  intros Hloss.
  apply post_for_each with (I := fun d l1 _ => d = [] /\ l1 = l).
  - now split.
  - intros d x rest l1 e1 _ [_ ->].
    eapply post_weaken; [apply train_epoch_without_criterion; exact Hloss |].
    intros [e | []] l2 e2 [Ho ->]; [| now elim Ho].
    split; [intros _; discriminate | reflexivity].
  - intros l1 e1 [Hnil ->]. split; [| reflexivity].
    intros HE. destruct E; [lia | discriminate].
Qed.

Lemma train_simclr_without_criterion (train_loader : nat -> list Batch)
      (args : Args T) h l :
  loss l = None ->
  (1 <= train_epochs args)%Z ->
  post (train_simclr w train_loader args false) h l
       (fun o _ evs => o <> inr tt /\ checkpoints evs = [] /\ wandb_saves evs = []).
Proof.
  intros Hloss HE. unfold train_simclr. wp.
  all: try (repeat split; (discriminate || reflexivity)).
  eapply post_weaken.
  - apply post_conj.
    + apply epoch_loop_post; [reflexivity | exact Hloss].
    + apply epoch_loop_without_criterion. exact Hloss.
  - intros o l1 e1 [(L1 & L2 & _) [Hfail _]].
    destruct o as [e | []].
    + proj_app. rewrite L1, L2. repeat split; (discriminate || reflexivity).
    + exfalso. apply Hfail; [lia | reflexivity].
Qed.

(** with [log_every_n_steps = 0] a step raises at [n_iter % 0], before any
    metric is computed *)
Lemma train_step_zero_interval (args : Args T) (hc : bool) (batch : Batch) h l :
  log_every_n_steps args = 0%Z ->
  post (train_step w args hc batch) h l
       (fun o _ evs => o <> inr tt /\ wandb_logs evs = []).
Proof.
  intros HK. unfold train_step. wp.
  all: try match goal with
         | E : mod_is_zero _ _ = inr _ |- _ =>
             apply mod_is_zero_inr in E; destruct E as [E _]; congruence
         end.
  all: split; [discriminate | reflexivity].
Qed.

Lemma wandb_logs_nil_app (a b : list event) :
  wandb_logs a = [] -> wandb_logs b = [] -> wandb_logs (a ++ b) = [].
Proof. intros Ha Hb. now rewrite wandb_logs_app, Ha, Hb. Qed.

Lemma train_epoch_zero_interval (args : Args T) (hc : bool) (e : Z)
      (bs : list Batch) h l :
  log_every_n_steps args = 0%Z ->
  post (train_epoch w args hc e bs) h l (fun _ _ evs => wandb_logs evs = []).
Proof.
  intros HK. unfold train_epoch. apply post_bind.
  eapply post_weaken.
  - apply post_for_each_all with (P := fun evs => wandb_logs evs = []).
    + reflexivity.
    + apply wandb_logs_nil_app.
    + intros x h' l'.
      eapply post_weaken; [apply (train_step_zero_interval args hc x h' l' HK) |].
      intros o l2 e2 [_ He2]. exact He2.
  - intros o l1 e1 He1. cbv beta in He1. destruct o as [e0 | []]; [exact He1 |].
    wp.
    all: apply wandb_logs_nil_app; [exact He1 | reflexivity].
Qed.

Lemma train_simclr_zero_interval (train_loader : nat -> list Batch)
      (args : Args T) (hc : bool) h l :
  log_every_n_steps args = 0%Z ->
  post (train_simclr w train_loader args hc) h l
       (fun _ _ evs => wandb_logs evs = []).
Proof.
  intros HK. unfold train_simclr. wp.
  all: try reflexivity.
  eapply post_weaken.
  - apply post_for_each_all with (P := fun evs => wandb_logs evs = []).
    + reflexivity.
    + apply wandb_logs_nil_app.
    + intros x h' l'. apply train_epoch_zero_interval. exact HK.
  - intros o l1 e1 He1. cbv beta in He1. destruct o as [e0 | []].
    + repeat (apply wandb_logs_nil_app; [reflexivity |]). exact He1.
    + wp.
      all: repeat (apply wandb_logs_nil_app; [reflexivity |]).
      all: apply wandb_logs_nil_app; [exact He1 | reflexivity].
Qed.

(** a step whose features [info_nce_loss] refuses *)
Lemma train_step_refused_features (args : Args T) (hc : bool) (batch : Batch)
      h l (e : exn) :
  info_nce_loss (model_out w (h ++ [EConcatViews batch]) batch) args = inl e ->
  raises w h (EConcatViews batch) = None ->
  raises w (h ++ [EConcatViews batch]) (EModel batch) = None ->
  post (train_step w args hc batch) h l
       (fun o l' evs =>
          o = inl e /\ l' = l /\ evs = [EConcatViews batch; EModel batch]).
Proof.
  intros Hloss Hr1 Hr2. unfold train_step. wp.
  all: try congruence.
  repeat split; congruence.
Qed.

(** no epoch to run: the checkpoint is written all the same *)
Lemma train_simclr_zero_epochs (train_loader : nat -> list Batch)
      (args : Args T) (hc : bool) h l :
  (train_epochs args <= 0)%Z ->
  (forall h' ev, raises w h' ev = None) ->
  post (train_simclr w train_loader args hc) h l
       (fun o l' evs =>
          o = inr tt /\ n_iter l' = 0%Z /\
          exists sd od,
            evs = setup_events args ++ closing_events
                  ++ [final_checkpoint args sd od; ELoggingInfo saved_msg;
                      EWandbSave (checkpoint_name (train_epochs args))]).
Proof.
  intros HE Hquiet. unfold train_simclr. wp.
  all: try match goal with
         | Hr : raises w _ _ = Some _ |- _ => rewrite Hquiet in Hr; discriminate
         end.
  replace (Z.to_nat (train_epochs args)) with 0 by lia.
  cbn [seq for_each]. wp.
  all: try match goal with
         | Hr : raises w _ _ = Some _ |- _ => rewrite Hquiet in Hr; discriminate
         end.
  split; [reflexivity |]. split; [reflexivity |].
  do 2 eexists. reflexivity.
Qed.

Lemma index0_inl (t : Tensor1 T) (e : exn) : index0 t = inl e -> t = [].
Proof. destruct t; [reflexivity | discriminate]. Qed.

Lemma train_step_completes (args : Args T) (b n : nat) (batch : Batch) h l :
  cooperative w args b n ->
  log_every_n_steps args <> 0%Z ->
  names_bound l ->
  post (train_step w args true batch) h l
       (fun o l' _ =>
          o = inr tt /\ names_bound l' /\ n_iter l' = (n_iter l + 1)%Z).
Proof.
  intros (Hquiet & Hb & Hn & Hb1 & Hn1 & Hrows & Hacc & Hlr) HK [Hn0 Hbound].
  unfold train_step. wp.
  all: try match goal with
         | Hr : raises w _ _ = Some _ |- _ => rewrite Hquiet in Hr; discriminate
         end.
  all: try match goal with
         | E : info_nce_loss _ _ = inl _ |- _ =>
             rewrite (info_nce_loss_tab _ args Hb Hn Hb1 Hn1 (Hrows _ _)) in E;
             discriminate
         end.
  all: try match goal with
         | E : index0 (fst (accuracy_out _ _ _ _)) = inl _ |- _ =>
             apply index0_inl in E; now apply Hacc in E
         | E : index0 (snd (accuracy_out _ _ _ _)) = inl _ |- _ =>
             apply index0_inl in E; now apply Hacc in E
         | E : index0 (get_lr_out _ _) = inl _ |- _ =>
             apply index0_inl in E; now apply Hlr in E
         | E : mod_is_zero _ _ = inl _ |- _ =>
             unfold mod_is_zero in E;
             destruct (Z.eqb_spec (log_every_n_steps args) 0);
             [contradiction | discriminate]
         end.
  all: simpl; split; [reflexivity |]; unfold names_bound; simpl.
  all: split; [| reflexivity]; split; [lia |]; intros _; split; [discriminate |].
  - match goal with
    | E : index0 (fst ?acc) = inr _ |- _ =>
        destruct (fst acc) as [| x xs]; [discriminate | now exists x, xs]
    end.
  - match goal with
    | E : mod_is_zero _ _ = inr _ |- _ =>
        apply mod_is_zero_inr in E; destruct E as [_ E]
    end.
    assert (Hpos : (0 < n_iter l)%Z).
    { destruct (Z.eq_dec (n_iter l) 0) as [E0 | E0]; [| lia].
      simpl in *. rewrite E0, Zmod_0_l in *. discriminate. }
    now apply Hbound.
Qed.

Lemma batch_loop_completes (args : Args T) (b n : nat) (bs : list Batch) h l :
  cooperative w args b n ->
  log_every_n_steps args <> 0%Z ->
  names_bound l ->
  post (for_each bs (train_step w args true)) h l
       (fun o l' _ =>
          o = inr tt /\ names_bound l' /\
          (n_iter l <= n_iter l')%Z /\ (bs <> [] -> (0 < n_iter l')%Z)).
Proof.
  intros Hco HK Hl.
  apply post_for_each with
    (I := fun d l1 _ =>
            names_bound l1 /\ (n_iter l <= n_iter l1)%Z /\
            (d <> [] -> (0 < n_iter l1)%Z)).
  - split; [exact Hl |]. split; [lia | intros Hne; now elim Hne].
  - intros d x rest l1 e1 _ (Hb1 & Hle & _).
    eapply post_weaken;
      [apply train_step_completes with (b := b) (n := n); assumption |].
    intros o l2 e2 (-> & Hb2 & Hn2). cbv beta iota.
    destruct Hb1 as [H0 _].
    split; [exact Hb2 |]. split; [lia | intros _; lia].
  - intros l1 e1 (Hb1 & Hle & Hpos).
    split; [reflexivity |]. split; [exact Hb1 |]. split; assumption.
Qed.

Lemma train_epoch_completes (args : Args T) (b n : nat) (e : Z)
      (bs : list Batch) h l :
  cooperative w args b n ->
  log_every_n_steps args <> 0%Z ->
  names_bound l ->
  bs <> [] \/ (0 < n_iter l)%Z ->
  post (train_epoch w args true e bs) h l
       (fun o l' _ => o = inr tt /\ names_bound l' /\ (0 < n_iter l')%Z).
Proof.
  intros Hco HK Hl Hstart. unfold train_epoch. apply post_bind.
  eapply post_weaken;
    [apply batch_loop_completes with (b := b) (n := n); assumption |].
  intros o l1 e1 (-> & Hb1 & Hle & Hne). cbv beta iota.
  assert (Hpos : (0 < n_iter l1)%Z) by (destruct Hstart; [auto | lia]).
  destruct Hb1 as [H0 Hb1]. destruct (Hb1 Hpos) as (Hloss & x & xs & Htop).
  destruct Hco as (Hquiet & _).
  wp.
  all: try match goal with
         | Hr : raises w _ _ = Some _ |- _ => rewrite Hquiet in Hr; discriminate
         end.
  all: try congruence.
  all: try match goal with
         | E : index0 ?t = inl _ |- _ => apply index0_inl in E; congruence
         end.
  all: split; [reflexivity |]; split; [| exact Hpos]; split; [exact H0 |].
  all: intros _; split; [congruence | exists x, xs; congruence].
Qed.

Lemma epoch_loop_completes (args : Args T) (b n : nat)
      (train_loader : nat -> list Batch) (E : nat) h l :
  cooperative w args b n ->
  log_every_n_steps args <> 0%Z ->
  names_bound l ->
  (1 <= E -> train_loader 0 <> []) ->
  post (for_each (seq 0 E)
          (fun e => train_epoch w args true (Z.of_nat e) (train_loader e))) h l
       (fun o _ _ => o = inr tt).
Proof.
  intros Hco HK Hl Hfirst.
  apply post_for_each with
    (I := fun d l1 _ => names_bound l1 /\ (d <> [] -> (0 < n_iter l1)%Z)).
  - split; [exact Hl | intros Hne; now elim Hne].
  - intros d x rest l1 e1 Hxs (Hb1 & Hpos).
    apply seq_split_inv in Hxs as [-> Hlt].
    assert (Hstart : train_loader (length d) <> [] \/ (0 < n_iter l1)%Z).
    { destruct d as [| y d]; [left; apply Hfirst; lia | right; now apply Hpos]. }
    eapply post_weaken;
      [apply train_epoch_completes with (b := b) (n := n); assumption |].
    intros o l2 e2 (-> & Hb2 & Hpos2). cbv beta iota.
    split; [exact Hb2 | intros _; exact Hpos2].
  - intros l1 e1 _. reflexivity.
Qed.

Lemma train_simclr_completes (train_loader : nat -> list Batch)
      (args : Args T) (b n : nat) h l :
  cooperative w args b n ->
  log_every_n_steps args <> 0%Z ->
  ((1 <= train_epochs args)%Z -> train_loader 0 <> []) ->
  post (train_simclr w train_loader args true) h l (fun o _ _ => o = inr tt).
Proof.
  intros Hco HK Hfirst. pose proof Hco as (Hquiet & _).
  unfold train_simclr. wp.
  all: try match goal with
         | Hr : raises w _ _ = Some _ |- _ => rewrite Hquiet in Hr; discriminate
         end.
  eapply post_weaken.
  - apply (epoch_loop_completes (b := b) (n := n)); try assumption.
    + split; simpl; [lia | intros Hpos; lia].
    + intros HE. apply Hfirst. lia.
  - intros o l1 e1 ->. cbv beta iota. wp.
    all: try match goal with
           | Hr : raises w _ _ = Some _ |- _ => rewrite Hquiet in Hr; discriminate
           end.
    reflexivity.
Qed.

(** without a criterion the optimizer is never stepped *)
Lemma not_in_app {X} (x : X) (a b : list X) :
  ~ In x a -> ~ In x b -> ~ In x (a ++ b).
Proof. intros Ha Hb Hin. apply in_app_or in Hin. tauto. Qed.

Lemma train_step_never_updates (args : Args T) (batch : Batch) h l :
  post (train_step w args false batch) h l
       (fun _ _ evs => ~ In EScalerStep evs).
Proof.
  unfold train_step. wp.
  all: simpl; intuition discriminate.
Qed.

Lemma train_epoch_never_updates (args : Args T) (e : Z) (bs : list Batch) h l :
  post (train_epoch w args false e bs) h l (fun _ _ evs => ~ In EScalerStep evs).
Proof.
  unfold train_epoch. apply post_bind.
  eapply post_weaken.
  - apply post_for_each_all with (P := fun evs => ~ In EScalerStep evs).
    + simpl. tauto.
    + apply not_in_app.
    + intros x h' l'. apply train_step_never_updates.
  - intros o l1 e1 He1. cbv beta in He1. destruct o as [e0 | []]; [exact He1 |].
    wp.
    all: apply not_in_app; [exact He1 | simpl; intuition discriminate].
Qed.

Lemma train_simclr_never_updates (train_loader : nat -> list Batch)
      (args : Args T) h l :
  n_iter l = 0%Z ->
  loss l = None ->
  post (train_simclr w train_loader args false) h l
       (fun _ l' evs => n_iter l' = 0%Z /\ ~ In EScalerStep evs).
Proof.
  intros Hn Hloss. unfold train_simclr. wp.
  all: try (split; [assumption || reflexivity | simpl; intuition discriminate]).
  eapply post_weaken.
  - apply post_conj.
    + apply post_for_each_all with (P := fun evs => ~ In EScalerStep evs).
      * simpl. tauto.
      * apply not_in_app.
      * intros x h' l'. apply train_epoch_never_updates.
    + apply epoch_loop_without_criterion. exact Hloss.
  - intros o l1 e1 [He1 [_ ->]]. cbv beta in He1.
    destruct o as [e0 | []]; [| wp].
    all: split; [reflexivity |].
    all: intros Hin; rewrite ?in_app_iff in Hin; simpl in Hin.
    all: intuition discriminate.
Qed.

(** *** The outline of a run *)

Lemma outline_app (a b : list event) : outline (a ++ b) = outline a ++ outline b.
Proof. apply flat_map_app. Qed.

Lemma initial_segment_refl {A} (a : list A) : initial_segment a a.
Proof. exists []. now rewrite app_nil_r. Qed.

Lemma initial_segment_app {A} (a b c : list A) :
  initial_segment b c -> initial_segment (a ++ b) (a ++ c).
Proof. intros [r ->]. exists r. now rewrite app_assoc. Qed.

Lemma initial_segment_app_r {A} (a b c : list A) :
  initial_segment a b -> initial_segment a (b ++ c).
Proof. intros [r ->]. exists (r ++ c). now rewrite app_assoc. Qed.

Lemma steps_outline_app (K n : Z) (a b : list Batch) :
  steps_outline K n (a ++ b)
  = steps_outline K n a ++ steps_outline K (n + Z.of_nat (length a)) b.
Proof.
  revert n. induction a as [| x a IH]; intros n.
  - simpl. now rewrite Z.add_0_r.
  - cbn [app steps_outline length]. rewrite IH, <- app_assoc.
    do 3 f_equal. lia.
Qed.

Lemma run_outline_S (K : Z) (train_loader : nat -> list Batch) (k : nat) :
  run_outline K train_loader (S k)
  = run_outline K train_loader k
    ++ epoch_outline K (Z.of_nat (length (batches_upto train_loader k)))
                     (Z.of_nat k) (train_loader k).
Proof.
  unfold run_outline. rewrite seq_S, flat_map_app. simpl.
  now rewrite app_nil_r.
Qed.

Lemma run_outline_mono (K : Z) (train_loader : nat -> list Batch) (a b : nat) :
  a <= b ->
  initial_segment (run_outline K train_loader a) (run_outline K train_loader b).
Proof.
  induction 1 as [| b _ IH]; [apply initial_segment_refl |].
  rewrite run_outline_S. now apply initial_segment_app_r.
Qed.

(** a step: its outline starts the expected one, and is the expected one
    when the step returns *)
Lemma train_step_outline (args : Args T) (hc : bool) (batch : Batch) h l :
  post (train_step w args hc batch) h l
       (fun o l' evs =>
          initial_segment (outline evs)
            (step_outline (log_every_n_steps args) (n_iter l) batch) /\
          (o = inr tt ->
           outline evs = step_outline (log_every_n_steps args) (n_iter l) batch /\
           n_iter l' = (n_iter l + 1)%Z)).
Proof.
  unfold train_step. wp.
  all: repeat match goal with
         | E : mod_is_zero _ _ = inr _ |- _ =>
             apply mod_is_zero_inr in E; destruct E as [? ?]
         end.
  all: subst; unfold step_outline, divides, initial_segment; simpl in *.
  all: split; [| try discriminate].
  all: try (eexists; reflexivity).
  all: match goal with
       | E : _ = (?n mod ?k =? 0)%Z |- _ => rewrite <- E
       end.
  all: try (eexists; reflexivity).
  all: intros _; split; reflexivity.
Qed.

Lemma batch_loop_outline (args : Args T) (hc : bool) (bs : list Batch) h l :
  post (for_each bs (train_step w args hc)) h l
       (fun o l' evs =>
          initial_segment (outline evs)
            (steps_outline (log_every_n_steps args) (n_iter l) bs) /\
          (o = inr tt ->
           outline evs = steps_outline (log_every_n_steps args) (n_iter l) bs /\
           n_iter l' = (n_iter l + Z.of_nat (length bs))%Z)).
Proof.
  apply post_for_each with
    (I := fun d l1 e1 =>
            outline e1 = steps_outline (log_every_n_steps args) (n_iter l) d /\
            n_iter l1 = (n_iter l + Z.of_nat (length d))%Z).
  - split; [reflexivity | simpl; lia].
  - intros d x rest l1 e1 Hbs [I1 I2].
    eapply post_weaken; [apply train_step_outline |].
    intros o l2 e2 [S1 S2]. rewrite I2 in S1, S2.
    destruct o as [e | []].
    + split; [| discriminate].
      rewrite Hbs, outline_app, steps_outline_app, I1.
      apply initial_segment_app. cbn [steps_outline].
      now apply initial_segment_app_r.
    + destruct (S2 eq_refl) as [S3 S4].
      rewrite outline_app, steps_outline_app, I1, S3, length_app.
      cbn [steps_outline length]. rewrite app_nil_r.
      split; [reflexivity | lia].
  - intros l1 e1 [I1 I2]. split.
    + rewrite I1. apply initial_segment_refl.
    + intros _. now split.
Qed.

Lemma train_epoch_outline (args : Args T) (hc : bool) (e : Z)
      (bs : list Batch) h l :
  post (train_epoch w args hc e bs) h l
       (fun o l' evs =>
          initial_segment (outline evs)
            (epoch_outline (log_every_n_steps args) (n_iter l) e bs) /\
          (o = inr tt ->
           outline evs = epoch_outline (log_every_n_steps args) (n_iter l) e bs /\
           n_iter l' = (n_iter l + Z.of_nat (length bs))%Z)).
Proof.
  unfold train_epoch. apply post_bind.
  eapply post_weaken; [apply batch_loop_outline |].
  intros o l1 e1 [L1 L2]. unfold epoch_outline.
  destruct o as [e0 | []]; cbv beta iota.
  - split; [now apply initial_segment_app_r | discriminate].
  - destruct (L2 eq_refl) as [L3 L4]. wp.
    all: rewrite ?outline_app, L3; simpl; rewrite ?app_nil_r.
    all: split; [| try discriminate].
    all: try (apply initial_segment_app; eexists; reflexivity).
    all: try (apply initial_segment_app_r; apply initial_segment_refl).
    all: intros _; split; [reflexivity | exact L4].
Qed.

Lemma epoch_loop_outline (args : Args T) (hc : bool)
      (train_loader : nat -> list Batch) (E : nat) h l :
  n_iter l = 0%Z ->
  post (for_each (seq 0 E)
          (fun e => train_epoch w args hc (Z.of_nat e) (train_loader e))) h l
       (fun o _ evs =>
          initial_segment (outline evs)
            (run_outline (log_every_n_steps args) train_loader E) /\
          (o = inr tt ->
           outline evs = run_outline (log_every_n_steps args) train_loader E)).
Proof.
  intros Hn.
  apply post_for_each with
    (I := fun d l1 e1 =>
            outline e1
            = run_outline (log_every_n_steps args) train_loader (length d) /\
            n_iter l1 = Z.of_nat (length (batches_upto train_loader (length d)))).
  - split; [reflexivity | exact Hn].
  - intros d x rest l1 e1 Hxs [I1 I2].
    pose proof Hxs as Hlen. apply seq_split_inv in Hlen as [-> Hlt].
    eapply post_weaken; [apply train_epoch_outline |].
    intros o l2 e2 [S1 S2]. rewrite I2 in S1, S2.
    destruct o as [e | []].
    + split; [| discriminate].
      rewrite outline_app, I1.
      destruct (run_outline_mono (log_every_n_steps args) train_loader
                  (a := S (length d)) (b := E)) as [r Hr]; [lia |].
      rewrite Hr, run_outline_S.
      apply initial_segment_app_r. now apply initial_segment_app.
    + destruct (S2 eq_refl) as [S3 S4].
      rewrite outline_app, I1, S3, length_app. cbn [length].
      rewrite Nat.add_1_r, run_outline_S, batches_upto_S, length_app.
      split; [reflexivity | lia].
  - intros l1 e1 [I1 _]. rewrite length_seq in I1. split.
    + rewrite I1. apply initial_segment_refl.
    + intros _. exact I1.
Qed.

Lemma train_simclr_outline (train_loader : nat -> list Batch)
      (args : Args T) (hc : bool) h l :
  post (train_simclr w train_loader args hc) h l
       (fun o _ evs =>
          initial_segment (outline evs)
            (run_outline (log_every_n_steps args) train_loader
                         (Z.to_nat (train_epochs args))) /\
          (o = inr tt ->
           outline evs = run_outline (log_every_n_steps args) train_loader
                                     (Z.to_nat (train_epochs args)))).
Proof.
  unfold train_simclr. wp.
  all: try (split; [eexists; reflexivity | discriminate]).
  eapply post_weaken; [apply epoch_loop_outline; reflexivity |].
  intros o l1 e1 [L1 L2]. cbv beta.
  destruct o as [e0 | []].
  - rewrite ?outline_app. simpl. split; [exact L1 | discriminate].
  - specialize (L2 eq_refl). wp.
    all: rewrite ?outline_app, L2; simpl; rewrite ?app_nil_r.
    all: split; [apply initial_segment_refl | try discriminate].
    all: intros _; reflexivity.
Qed.

(** *** The state that is saved *)

(** where the one [save_checkpoint] call of a trace stands *)
Lemma checkpoint_position (a t pre post : list event)
      (st st' : Checkpoint ModelState OptState)
      (b b' : bool) (f f' : string) :
  checkpoints a = [] -> checkpoints t = [] ->
  a ++ ESaveCheckpoint st b f :: t = pre ++ ESaveCheckpoint st' b' f' :: post ->
  pre = a /\ st' = st /\ b' = b /\ f' = f /\ post = t.
Proof.
  revert pre. induction a as [| y a IH]; intros pre Ha Ht E.
  - destruct pre as [| x pre].
    + injection E as -> -> -> ->. now repeat split.
    + exfalso. injection E as _ E. rewrite E, checkpoints_app in Ht.
      apply app_eq_nil in Ht as [_ Ht]. discriminate.
  - change (checkpoints ((y :: nil) ++ a) = []) in Ha.
    rewrite checkpoints_app in Ha. apply app_eq_nil in Ha as [Hy Ha].
    destruct pre as [| x pre].
    + exfalso. injection E as -> _. discriminate.
    + injection E as -> E.
      destruct (IH pre Ha Ht E) as (-> & -> & -> & -> & ->). now repeat split.
Qed.

(** the checkpoint holds what the two [state_dict()] calls right before
    [save_checkpoint] returned *)
Lemma train_simclr_checkpoint_state (train_loader : nat -> list Batch)
      (args : Args T) (hc : bool) h l :
  loss l = None ->
  post (train_simclr w train_loader args hc) h l
       (fun _ _ evs =>
          checkpoints evs = [] \/
          exists hist tail,
            evs = (hist ++ [EModelStateDict; EOptimizerStateDict])
                  ++ final_checkpoint args
                       (state_dict_out w (h ++ hist))
                       (optimizer_state_out w (h ++ hist ++ [EModelStateDict]))
                  :: tail /\
            checkpoints hist = [] /\ checkpoints tail = []).
Proof.
  intros Hloss. unfold train_simclr. wp.
  all: try (left; reflexivity).
  eapply post_weaken; [apply epoch_loop_post; [reflexivity | exact Hloss] |].
  intros o l1 e1 (L1 & _). cbv beta.
  destruct o as [e | []].
  - left. proj_app. rewrite L1. reflexivity.
  - wp.
    1-3: left; proj_app; rewrite L1; reflexivity.
    all: right.
    all: exists (setup_events args ++ e1 ++ [ELoggingInfo "Training has finished."]).
    all: eexists.
    all: split; [unfold final_checkpoint, setup_events; simpl;
                 rewrite <- ?app_assoc; simpl; rewrite <- ?app_assoc; simpl;
                 reflexivity |].
    all: unfold setup_events; proj_app; rewrite L1; split; reflexivity.
Qed.
End DriverFacts.

(** ** Pair construction: layout, shapes and the single-view case *)

Lemma nth_map_seq {A} (f : nat -> A) (m i : nat) (d : A) :
  i < m -> nth i (map f (seq 0 m)) d = f i.
Proof.
  intros Hi. rewrite (nth_indep _ d (f 0)) by now rewrite length_map, length_seq.
  now rewrite map_nth, seq_nth.
Qed.

Section LossClaims.
Context {T : Type} `{Scalar T}.

Lemma label_row_positives (b m i : nat) :
  length (filter s_nonzero
            (map (fun j => of_bool (same_source b i j)) (off_diag m i)))
  = length (positive_cols b m i).
Proof.
  rewrite filter_map_swap, length_map. unfold positive_cols.
  f_equal. apply filter_ext. intros j. apply nonzero_of_bool.
Qed.

(** With a single view there is no positive and every other row is a
    negative. *)
Lemma single_view_cols (b i : nat) :
  i < b ->
  positive_cols b b i = [] /\ negative_cols b b i = off_diag b i.
Proof.
  intros Hi.
  assert (Hsame : forall j, In j (off_diag b i) -> same_source b i j = false).
  { intros j Hj. pose proof (in_off_diag _ _ _ Hj) as Hjb.
    unfold off_diag in Hj. apply filter_In in Hj as [_ Hne].
    unfold same_source. rewrite !Nat.mod_small by assumption.
    destruct (Nat.eqb_spec i j); [discriminate |].
    destruct (Nat.eqb_spec j i); [congruence | reflexivity]. }
  split.
  - unfold positive_cols. now apply filter_none.
  - unfold negative_cols.
    rewrite (filter_ext_in _ (fun _ => true)).
    + generalize (off_diag b i). intros l.
      induction l as [| x l IH]; simpl; [reflexivity | now rewrite IH].
    + intros j Hj. now rewrite Hsame.
Qed.
End LossClaims.

(** C1: for [n >= 2] views of [b >= 1] images and a feature tensor of
    [n * b] rows, every row of the label mask built by [info_nce_loss]
    has, once the diagonal is removed, [n * b - 1] entries of which
    exactly [n - 1] are positive; and every row [i] of the returned
    logits is the [n - 1] similarities of row [i] with the other views of
    its image, followed by its [n * b - n] similarities with the views
    of the other images (all divided by the temperature). *)
Theorem info_nce_positives_lead {T : Type} `{Scalar T}
        (features : Tensor2 T) (args : Args T) (b n : nat) :
  batch_size args = Z.of_nat b -> n_views args = Z.of_nat n ->
  2 <= n -> 1 <= b ->
  length features = n * b ->
  (exists mask,
      label_mask args = inr mask /\
      forall i, i < n * b ->
        length (nth i mask []) = n * b - 1 /\
        length (filter s_nonzero (nth i mask [])) = n - 1) /\
  (exists logits labels,
      info_nce_loss features args = inr (logits, labels) /\
      forall i, i < n * b ->
        nth i logits []
        = map (fun x => s_div x (temperature args))
              (map (sim features i) (positive_cols b (n * b) i)
               ++ map (sim features i) (negative_cols b (n * b) i)) /\
        length (positive_cols b (n * b) i) = n - 1 /\
        length (negative_cols b (n * b) i) = n * b - n).
Proof.
  intros Hb Hn Hn2 Hb1 Hlen. split.
  - eexists. split; [apply (label_mask_tab args Hb Hn); lia |].
    intros i Hi. rewrite nth_map_seq by assumption.
    rewrite label_row_positives, length_map.
    split; [now apply off_diag_length | apply positive_cols_length; lia].
  - do 2 eexists. split; [apply (info_nce_loss_tab features args Hb Hn); lia |].
    intros i Hi. rewrite nth_map_seq by assumption.
    repeat split.
    + apply positive_cols_length; lia.
    + apply negative_cols_length; lia.
Qed.

Lemma info_nce_positives_lead_witness :
  (exists mask,
      label_mask (demo_args 2 2 0.5%float 1 1) = inr mask /\
      forall i, i < 2 * 2 ->
        length (nth i mask []) = 2 * 2 - 1 /\
        length (filter s_nonzero (nth i mask [])) = 2 - 1) /\
  (exists logits labels,
      info_nce_loss demo_features (demo_args 2 2 0.5%float 1 1)
      = inr (logits, labels) /\
      forall i, i < 2 * 2 ->
        nth i logits []
        = map (fun x => s_div x 0.5%float)
              (map (sim demo_features i) (positive_cols 2 (2 * 2) i)
               ++ map (sim demo_features i) (negative_cols 2 (2 * 2) i)) /\
        length (positive_cols 2 (2 * 2) i) = 2 - 1 /\
        length (negative_cols 2 (2 * 2) i) = 2 * 2 - 2).
Proof.
  apply (info_nce_positives_lead demo_features (demo_args 2 2 0.5%float 1 1)
           (b := 2) (n := 2)).
  - reflexivity.
  - reflexivity.
  - lia.
  - lia.
  - reflexivity.
Defined.

(** C2: for [n >= 2] views of [b >= 1] images and a feature tensor of
    [n * b] rows, [info_nce_loss] returns logits of [n * b] rows of
    [n * b - 1] entries each and labels that are [n * b] zeros. *)
Theorem info_nce_shapes {T : Type} `{Scalar T}
        (features : Tensor2 T) (args : Args T) (b n : nat) :
  batch_size args = Z.of_nat b -> n_views args = Z.of_nat n ->
  2 <= n -> 1 <= b ->
  length features = n * b ->
  exists logits labels,
    info_nce_loss features args = inr (logits, labels) /\
    length logits = n * b /\
    Forall (fun row => length row = n * b - 1) logits /\
    labels = repeat 0%Z (n * b) /\
    (forall i, i < n * b -> nth i labels 1%Z = 0%Z).
Proof.
  intros Hb Hn Hn2 Hb1 Hlen.
  do 2 eexists. split; [apply (info_nce_loss_tab features args Hb Hn); lia |].
  repeat split.
  - now rewrite length_map, length_seq.
  - apply Forall_forall. intros row Hrow.
    apply in_map_iff in Hrow as (i & <- & Hi). apply in_seq in Hi.
    unfold logits_row. rewrite length_map, length_app, !length_map.
    rewrite positive_cols_length, negative_cols_length by lia.
    assert (n <= n * b) by nia. lia.
  - intros i Hi. unfold zeros. apply nth_repeat_lt. assumption.
Qed.

Lemma info_nce_shapes_witness :
  exists logits labels,
    info_nce_loss demo_features (demo_args 2 2 0.5%float 1 1)
    = inr (logits, labels) /\
    length logits = 2 * 2 /\
    Forall (fun row => length row = 2 * 2 - 1) logits /\
    labels = repeat 0%Z (2 * 2) /\
    (forall i, i < 2 * 2 -> nth i labels 1%Z = 0%Z).
Proof.
  apply (info_nce_shapes demo_features (demo_args 2 2 0.5%float 1 1)
           (b := 2) (n := 2)).
  - reflexivity.
  - reflexivity.
  - lia.
  - lia.
  - reflexivity.
Defined.

(** C3, as stated, fails: with a single view [info_nce_loss] returns
    logits and labels, and so it does with a temperature that is zero or
    negative; a whole run with a single view completes and writes its
    checkpoint. *)
Lemma single_view_is_accepted :
  info_nce_loss [[1; 0]; [0; 1]]%float (demo_args 2 1 0.5%float 1 1)
  = inr ([[0]; [0]]%float, [0; 0]%Z) /\
  is_ok (info_nce_loss demo_features (demo_args 2 2 0%float 1 1)) = true /\
  is_ok (info_nce_loss demo_features (demo_args 2 2 (-1)%float 1 1)) = true /\
  out (run_train (demo_world false) demo_loader
                 (demo_args 4 1 0.5%float 1 1) true) = inr tt /\
  wandb_saves (emitted (run_train (demo_world false) demo_loader
                                  (demo_args 4 1 0.5%float 1 1) true))
  = ["checkpoint_0001.pth.tar"%string].
Proof. repeat split; vm_compute; reflexivity. Qed.

(** C3, amended: [info_nce_loss] checks nothing.  With a single view and
    [b >= 1] images it returns, whatever the temperature, logits whose
    row [i] holds no positive and the [b - 1] similarities of row [i]
    with the other rows, divided by the temperature, and [b] zero
    labels. *)
Theorem info_nce_single_view {T : Type} `{Scalar T}
        (features : Tensor2 T) (args : Args T) (b : nat) :
  batch_size args = Z.of_nat b -> n_views args = 1%Z ->
  1 <= b ->
  length features = b ->
  exists logits,
    info_nce_loss features args = inr (logits, repeat 0%Z b) /\
    length logits = b /\
    forall i, i < b ->
      nth i logits []
      = map (fun x => s_div x (temperature args))
            (map (sim features i) (off_diag b i)) /\
      length (nth i logits []) = b - 1.
Proof.
  intros Hb Hn Hb1 Hlen.
  eexists. split.
  - rewrite (info_nce_loss_tab features args (b := b) (n := 1)); try lia; try assumption.
    + rewrite Nat.mul_1_l. reflexivity.
  - split; [now rewrite length_map, length_seq |].
    intros i Hi. rewrite nth_map_seq by assumption.
    unfold logits_row.
    destruct (single_view_cols Hi) as [-> ->]. simpl.
    split; [reflexivity |].
    rewrite !length_map. now apply off_diag_length.
Qed.

Lemma info_nce_single_view_witness :
  exists logits,
    info_nce_loss [[1; 0]; [0; 1]]%float (demo_args 2 1 0%float 1 1)
    = inr (logits, repeat 0%Z 2) /\
    length logits = 2 /\
    forall i, i < 2 ->
      nth i logits []
      = map (fun x => s_div x 0%float)
            (map (sim [[1; 0]; [0; 1]]%float i) (off_diag 2 i)) /\
      length (nth i logits []) = 2 - 1.
Proof.
  apply (info_nce_single_view [[1; 0]; [0; 1]]%float (demo_args 2 1 0%float 1 1)
           (b := 2)).
  - reflexivity.
  - reflexivity.
  - lia.
  - reflexivity.
Defined.

(** ** The training driver: schedule, checkpoint, metrics *)

Lemma in_zseq (n0 : Z) (k : nat) (z : Z) :
  In z (zseq n0 k) <-> (n0 <= z < n0 + Z.of_nat k)%Z.
Proof.
  unfold zseq. rewrite in_map_iff. split.
  - intros (i & <- & Hi). apply in_seq in Hi. lia.
  - intros Hz. exists (Z.to_nat (z - n0)). split; [lia |].
    apply in_seq. lia.
Qed.

Lemma NoDup_zseq (n0 : Z) (k : nat) : NoDup (zseq n0 k).
Proof.
  unfold zseq. apply Finite.Injective_map_NoDup; [| apply seq_NoDup].
  intros i j Hij. lia.
Qed.

Lemma filter_all {A} (p : A -> bool) (l : list A) :
  (forall x, In x l -> p x = true) -> filter p l = l.
Proof.
  induction l as [| x l IH]; simpl; intros Hp; [reflexivity |].
  rewrite (Hp x) by now left. f_equal. apply IH. intros y Hy. apply Hp. now right.
Qed.

Section DriverClaims.
Context {T : Type} `{Scalar T}.
Variables Batch ModelState OptState : Type.
Variable w : World (T := T) Batch ModelState OptState.
Variable train_loader : nat -> list Batch.
Variable args : Args T.
Variable has_criterion : bool.

(** What [train_simclr_post] says of a whole run. *)
Lemma run_train_post :
  run_post w train_loader args []
           (out (run_train w train_loader args has_criterion))
           (locals (run_train w train_loader args has_criterion))
           (emitted (run_train w train_loader args has_criterion)).
Proof.
  exact (@train_simclr_post T _ Batch ModelState OptState w train_loader args
           has_criterion [] init_locals eq_refl).
Qed.

(** What [train_simclr_outline] says of a whole run. *)
Lemma run_train_outline :
  let r := run_train w train_loader args has_criterion in
  let expected := run_outline (log_every_n_steps args) train_loader
                              (Z.to_nat (train_epochs args)) in
  initial_segment (outline (emitted r)) expected /\
  (out r = inr tt -> outline (emitted r) = expected).
Proof.
  exact (@train_simclr_outline T _ Batch ModelState OptState w train_loader args
           has_criterion [] init_locals).
Qed.

(** What [train_simclr_checkpoint_state] says of a whole run. *)
Lemma run_train_checkpoint_state :
  let r := run_train w train_loader args has_criterion in
  checkpoints (emitted r) = [] \/
  exists hist tail,
    emitted r = (hist ++ [EModelStateDict; EOptimizerStateDict])
                ++ final_checkpoint args (state_dict_out w hist)
                     (optimizer_state_out w (hist ++ [EModelStateDict]))
                :: tail /\
    checkpoints hist = [] /\ checkpoints tail = [].
Proof.
  exact (@train_simclr_checkpoint_state T _ Batch ModelState OptState w
           train_loader args has_criterion [] init_locals eq_refl).
Qed.
End DriverClaims.

(** C4: in every run the steps, the calls of [scheduler.step()] and the
    end-of-epoch lines come in the order of [run_outline]: epoch after
    epoch, the steps of all the batches of the epoch, then, from epoch
    10 on, one call of [scheduler.step()], then the debug line of the
    epoch; a run that completes went through the whole outline.  So
    the call is made at the end of an epoch, after its last step and
    never between two steps.  The epochs in which it is made are all at
    least 10 and pairwise distinct; every epoch from 10 on whose
    end-of-epoch line was reached had its call; and a run that completes
    made the call in exactly the epochs 10, 11, ..., [train_epochs - 1],
    once each, however many batches the loader yields. *)
Theorem scheduler_steps_after_warmup {T : Type} `{Scalar T}
        (Batch ModelState OptState : Type)
        (w : World (T := T) Batch ModelState OptState)
        (train_loader : nat -> list Batch) (args : Args T) (hc : bool) :
  let r := run_train w train_loader args hc in
  let expected := run_outline (log_every_n_steps args) train_loader
                              (Z.to_nat (train_epochs args)) in
  initial_segment (outline (emitted r)) expected /\
  (out r = inr tt -> outline (emitted r) = expected) /\
  (forall e, In e (sched_epochs (emitted r)) ->
             (10 <= e < train_epochs args)%Z) /\
  NoDup (sched_epochs (emitted r)) /\
  (forall e, In e (debug_epochs (emitted r)) -> (10 <= e)%Z ->
             In e (sched_epochs (emitted r))) /\
  (out r = inr tt ->
   sched_epochs (emitted r)
   = zseq 10 (Z.to_nat (train_epochs args) - 10)).
Proof.
  intros r expected.
  destruct (run_train_outline w train_loader args hc) as [Hseg Hfull].
  split; [exact Hseg |]. split; [exact Hfull |].
  destruct (run_train_post w train_loader args hc)
    as (_ & _ & (k & k' & Hk & HkE & Hs & Hd & Hok) & _).
  fold r in Hs, Hd, Hok. rewrite Hs, Hd.
  split; [| split; [| split]].
  - intros e He. apply filter_In in He as [Hin Hle].
    apply Z.leb_le in Hle. apply in_zseq in Hin. lia.
  - apply NoDup_filter, NoDup_zseq.
  - intros e He Hle. apply filter_In. split.
    + apply in_zseq in He. apply in_zseq. lia.
    + now apply Z.leb_le.
  - intros Ho. specialize (Hok Ho). subst k'.
    assert (k = Z.to_nat (train_epochs args)) by lia. subst k.
    generalize (Z.to_nat (train_epochs args)). intros E.
    destruct (Nat.le_gt_cases E 10) as [Hle | Hgt].
    + replace (E - 10) with 0 by lia. simpl.
      apply filter_none. intros z Hz. apply in_zseq in Hz.
      apply Z.leb_gt. lia.
    + replace E with (10 + (E - 10)) at 1 by lia.
      rewrite zseq_app, filter_app.
      rewrite (filter_none (Z.leb 10) (zseq 0 10)).
      * simpl. apply filter_all. intros z Hz. apply in_zseq in Hz.
        apply Z.leb_le. lia.
      * intros z Hz. apply in_zseq in Hz. apply Z.leb_gt. lia.
Qed.

(** C5: in every run [save_checkpoint] is called at most once, always
    with [{epoch: train_epochs, arch, state_dict, optimizer}],
    [is_best=False] and the file name made from [train_epochs] alone; a
    run that completes called it exactly once; and whenever [wandb.save]
    is called, the call to [save_checkpoint] has already returned and
    [wandb.save] is the last call of the run, whether it raises or not.
    The state that is saved is what [model.state_dict()] and
    [optimizer.state_dict()] returned in the two calls made right before
    [save_checkpoint], after every batch of every epoch had entered its
    step. *)
Theorem checkpoint_saved_before_upload {T : Type} `{Scalar T}
        (Batch ModelState OptState : Type)
        (w : World (T := T) Batch ModelState OptState)
        (train_loader : nat -> list Batch) (args : Args T) (hc : bool) :
  let r := run_train w train_loader args hc in
  let name := checkpoint_name (train_epochs args) in
  length (checkpoints (emitted r)) <= 1 /\
  (forall st best f,
      In (st, best, f) (checkpoints (emitted r)) ->
      ck_epoch st = train_epochs args /\ ck_arch st = arch args /\
      best = false /\ f = name) /\
  (out r = inr tt -> length (checkpoints (emitted r)) = 1) /\
  (out r = inr tt \/ wandb_saves (emitted r) <> [] ->
   exists pre sd od,
     emitted r = pre ++ [final_checkpoint args sd od;
                         ELoggingInfo saved_msg; EWandbSave name] /\
     raises w pre (final_checkpoint args sd od) = None /\
     checkpoints pre = [] /\ wandb_saves pre = []) /\
  (forall pre st best f post,
      emitted r = pre ++ ESaveCheckpoint st best f :: post ->
      exists hist,
        pre = hist ++ [EModelStateDict; EOptimizerStateDict] /\
        ck_state_dict st = state_dict_out w hist /\
        ck_optimizer st = optimizer_state_out w (hist ++ [EModelStateDict]) /\
        steps_begun hist
        = batches_upto train_loader (Z.to_nat (train_epochs args))).
Proof.
  intros r name.
  assert (Hstate :
            forall pre st best f post,
              emitted r = pre ++ ESaveCheckpoint st best f :: post ->
              exists hist,
                pre = hist ++ [EModelStateDict; EOptimizerStateDict] /\
                ck_state_dict st = state_dict_out w hist /\
                ck_optimizer st
                = optimizer_state_out w (hist ++ [EModelStateDict]) /\
                steps_begun hist
                = batches_upto train_loader (Z.to_nat (train_epochs args))).
  { intros pre st best f post E.
    destruct (run_train_checkpoint_state w train_loader args hc)
      as [Hnone | (hist & tail & E' & Hh & Ht)]; fold r in Hnone || fold r in E'.
    - exfalso. rewrite E, checkpoints_app in Hnone.
      apply app_eq_nil in Hnone as [_ Hnone]. discriminate.
    - assert (Ha : checkpoints (hist ++ [EModelStateDict; EOptimizerStateDict])
                   = []) by (rewrite checkpoints_app, Hh; reflexivity).
      unfold final_checkpoint in E'. rewrite E in E'. symmetry in E'.
      destruct (checkpoint_position _ _ _ _ _ _ _ _ _ _ Ha Ht E')
        as (-> & -> & -> & -> & ->).
      exists hist. split; [reflexivity |]. split; [reflexivity |].
      split; [reflexivity |].
      destruct (run_train_post w train_loader args hc)
        as (_ & _ & _ & _ & Hcp).
      fold r in Hcp. rewrite E in Hcp.
      destruct Hcp as [(C1 & _) | (pre0 & sd & od & tail0 & E0 & C1 & _ & Hb & _)].
      + rewrite checkpoints_app in C1. apply app_eq_nil in C1 as [_ C1].
        discriminate.
      + unfold final_checkpoint in E0.
        destruct (checkpoint_position _ _ _ _ _ _ _ _ _ _ Ha Ht E0) as (-> & _).
        rewrite steps_begun_app in Hb. simpl in Hb.
        now rewrite app_nil_r in Hb. }
  cut (length (checkpoints (emitted r)) <= 1 /\
       (forall st best f,
           In (st, best, f) (checkpoints (emitted r)) ->
           ck_epoch st = train_epochs args /\ ck_arch st = arch args /\
           best = false /\ f = name) /\
       (out r = inr tt -> length (checkpoints (emitted r)) = 1) /\
       (out r = inr tt \/ wandb_saves (emitted r) <> [] ->
        exists pre sd od,
          emitted r = pre ++ [final_checkpoint args sd od;
                              ELoggingInfo saved_msg; EWandbSave name] /\
          raises w pre (final_checkpoint args sd od) = None /\
          checkpoints pre = [] /\ wandb_saves pre = [])).
  { intros (H1 & H2 & H3 & H4). repeat (split; [assumption |]). exact Hstate. }
  clear Hstate.
  destruct (run_train_post w train_loader args hc)
    as (_ & _ & _ & _ & Hcp).
  fold r in Hcp.
  destruct Hcp as [(C1 & C2 & C3) |
                   (pre & sd & od & tail & E & C1 & C2 & _ & _ & _ & Ht)].
  - rewrite C1, C2. simpl.
    split; [lia |]. split; [intros st best f [] |].
    split; [intros Ho; contradiction |].
    intros [Ho | Hs]; [contradiction | now elim Hs].
  - assert (Hck : checkpoints (emitted r)
                  = [({| ck_epoch := train_epochs args; ck_arch := arch args;
                         ck_state_dict := sd; ck_optimizer := od |},
                      false, name)]).
    { rewrite E, checkpoints_app, C1.
      destruct Ht as [(-> & _) | (_ & [(-> & _) | (-> & _)])]; reflexivity. }
    rewrite Hck. simpl.
    split; [lia |]. split; [| split; [reflexivity |]].
    + intros st best f [Hin | []]. injection Hin as <- <- <-. now repeat split.
    + intros Hreach.
      destruct Ht as [(-> & Ho & _) | (Hr & [(-> & Ho) | (-> & _)])].
      * exfalso. destruct Hreach as [Hreach | Hreach]; [contradiction |].
        apply Hreach. rewrite E, wandb_saves_app, C2. reflexivity.
      * exfalso. destruct Hreach as [Hreach | Hreach]; [contradiction |].
        apply Hreach. rewrite E, wandb_saves_app, C2. reflexivity.
      * exists pre, sd, od. repeat split; assumption.
Qed.

(** C6, amended: an exception raised by [wandb.log] is not caught.  The
    run ends with that exception at that call: no later call is made,
    and no checkpoint is written. *)
Theorem wandb_log_failure_aborts {T : Type} `{Scalar T}
        (Batch ModelState OptState : Type)
        (w : World (T := T) Batch ModelState OptState)
        (train_loader : nat -> list Batch) (args : Args T) (hc : bool)
        (pre post : list (event (T := T) Batch ModelState OptState))
        (metrics : list (string * py_value (T := T))) (e : exn) :
  emitted (run_train w train_loader args hc) = pre ++ EWandbLog metrics :: post ->
  raises w pre (EWandbLog metrics) = Some e ->
  out (run_train w train_loader args hc) = inl e /\
  post = [] /\
  checkpoints (emitted (run_train w train_loader args hc)) = [] /\
  wandb_saves (emitted (run_train w train_loader args hc)) = [].
Proof.
  intros E Hr.
  destruct (@propagates_train_simclr T _ Batch ModelState OptState w
              train_loader args hc [] init_locals pre (EWandbLog metrics)
              post e E Hr) as [Ho ->].
  split; [exact Ho |]. split; [reflexivity |].
  destruct (run_train_post w train_loader args hc)
    as (_ & _ & _ & _ & Hcp).
  destruct Hcp as [(C1 & C2 & _) |
                   (pre' & sd & od & tail & E' & _ & _ & _ & _ & _ & Ht)].
  - now split.
  - exfalso. rewrite E in E'.
    destruct Ht as [(-> & _) | (_ & [(-> & _) | (-> & _)])].
    + apply app_inj_tail in E' as [_ E']. discriminate.
    + change (pre' ++ [final_checkpoint args sd od; ELoggingInfo saved_msg])
        with (pre' ++ [final_checkpoint args sd od] ++ [ELoggingInfo saved_msg]) in E'.
      rewrite app_assoc in E'.
      apply app_inj_tail in E' as [_ E']. discriminate.
    + change (pre' ++ [final_checkpoint args sd od; ELoggingInfo saved_msg;
                       EWandbSave (checkpoint_name (train_epochs args))])
        with (pre' ++ [final_checkpoint args sd od; ELoggingInfo saved_msg]
                   ++ [EWandbSave (checkpoint_name (train_epochs args))]) in E'.
      rewrite app_assoc in E'.
      apply app_inj_tail in E' as [_ E']. discriminate.
Qed.

(** C7: with [log_every_n_steps = K >= 1], every dictionary handed to
    [wandb.log] has exactly the keys loss, acc/top1, acc/top5,
    learning_rate and global_step.  In every run the steps and the
    metric events come in the order of [run_outline]: the batches are
    numbered 0, 1, 2, ... in the order the loader yields them, across
    the epochs; the step of batch number [n] is entered, its optimizer
    update is made, and then, when and only when [K] divides [n], one
    metric event with ['global_step'] [n] is emitted, before the next
    step is entered.  A run that does not complete stops somewhere in
    that outline; a run that completes went through all of it, its
    counter ends at the number of batches and the steps logged are
    exactly the multiples of [K] below it.  And a run does complete
    when a criterion is given, no collaborator raises, the model returns
    [n_views * batch_size] rows, [accuracy] and [get_lr] return
    non-empty results and the first epoch has a batch. *)
Theorem metrics_every_k_steps {T : Type} `{Scalar T}
        (Batch ModelState OptState : Type)
        (w : World (T := T) Batch ModelState OptState)
        (train_loader : nat -> list Batch) (args : Args T) (hc : bool) :
  (1 <= log_every_n_steps args)%Z ->
  let r := run_train w train_loader args hc in
  let K := log_every_n_steps args in
  let all_batches := batches_upto train_loader (Z.to_nat (train_epochs args)) in
  let expected := run_outline K train_loader (Z.to_nat (train_epochs args)) in
  Forall (fun m => map fst m = metric_keys) (wandb_logs (emitted r)) /\
  initial_segment (outline (emitted r)) expected /\
  (out r = inr tt -> outline (emitted r) = expected) /\
  (hc = true ->
   forall b n, cooperative w args b n ->
               ((1 <= train_epochs args)%Z -> train_loader 0 <> []) ->
               out r = inr tt) /\
  (exists s, s <= length all_batches /\
             logged_steps (emitted r) = filter (divides K) (zseq 0 s)) /\
  (out r = inr tt ->
   steps_begun (emitted r) = all_batches /\
   n_iter (locals r) = Z.of_nat (length all_batches) /\
   logged_steps (emitted r) = filter (divides K) (zseq 0 (length all_batches)) /\
   forall n, In n (logged_steps (emitted r)) <->
             (0 <= n < Z.of_nat (length all_batches))%Z /\ (n mod K = 0)%Z).
Proof.
  intros HK r K all_batches expected.
  destruct (run_train_outline w train_loader args hc) as [Hseg Hfull].
  cut (Forall (fun m => map fst m = metric_keys) (wandb_logs (emitted r)) /\
       (exists s, s <= length all_batches /\
                  logged_steps (emitted r) = filter (divides K) (zseq 0 s)) /\
       (out r = inr tt ->
        steps_begun (emitted r) = all_batches /\
        n_iter (locals r) = Z.of_nat (length all_batches) /\
        logged_steps (emitted r)
        = filter (divides K) (zseq 0 (length all_batches)) /\
        forall n, In n (logged_steps (emitted r)) <->
                  (0 <= n < Z.of_nat (length all_batches))%Z /\
                  (n mod K = 0)%Z)).
  { intros (H1 & H2 & H3).
    split; [exact H1 |]. split; [exact Hseg |]. split; [exact Hfull |].
    split; [| split; [exact H2 | exact H3]].
    intros -> b n Hco Hfirst.
    assert (HK0 : log_every_n_steps args <> 0%Z) by lia.
    exact (@train_simclr_completes T _ Batch ModelState OptState w
             train_loader args b n [] init_locals Hco HK0 Hfirst). }
  clear Hseg Hfull.
  destruct (run_train_post w train_loader args hc)
    as (Hkeys & (s & Hs & Hlog & Hsok) & _ & Hn & Hcp).
  fold r in Hkeys, Hlog, Hsok, Hn, Hcp. fold K in Hlog. fold all_batches in Hs, Hsok, Hn.
  split; [exact Hkeys |]. split; [exists s; now split |].
  intros Ho. specialize (Hsok Ho). subst s.
  assert (Hsteps : steps_begun (emitted r) = all_batches).
  { destruct Hcp as [(_ & _ & C3) |
                     (pre & sd & od & tail & E & _ & _ & Hb & _ & _ & Ht)];
      [contradiction |].
    rewrite E, steps_begun_app, Hb.
    destruct Ht as [(-> & _) | (_ & [(-> & _) | (-> & _)])];
      simpl; now rewrite app_nil_r. }
  split; [exact Hsteps |]. split; [now apply Hn |]. split; [exact Hlog |].
  intros n. rewrite Hlog. split.
  - intros Hin. apply filter_In in Hin as [Hin Hd]. apply in_zseq in Hin.
    unfold divides in Hd. apply Z.eqb_eq in Hd. split; [lia | exact Hd].
  - intros [Hr Hm]. apply filter_In. split.
    + apply in_zseq. lia.
    + unfold divides. now apply Z.eqb_eq.
Qed.

(** C10: with at least one epoch to run, a loader that yields no batch
    in the first epoch makes the run fail before any checkpoint is
    written; when the calls made before the epoch loop return, the
    failure is the unbound name [loss] at the end-of-epoch debug line of
    epoch 0, and nothing else was called.  Hence a run that reaches
    [save_checkpoint] had a batch in its first epoch and logged its
    metrics at global step 0. *)
Theorem empty_first_epoch_never_checkpoints {T : Type} `{Scalar T}
        (Batch ModelState OptState : Type)
        (w : World (T := T) Batch ModelState OptState)
        (train_loader : nat -> list Batch) (args : Args T) (hc : bool) :
  (1 <= train_epochs args)%Z ->
  let r := run_train w train_loader args hc in
  (train_loader 0 = [] ->
   out r <> inr tt /\ checkpoints (emitted r) = [] /\
   ((forall h ev, In ev (setup_events args) -> raises w h ev = None) ->
    out r = inl (UnboundLocalError "loss") /\ emitted r = setup_events args)) /\
  (checkpoints (emitted r) <> [] ->
   train_loader 0 <> [] /\ steps_begun (emitted r) <> [] /\
   In 0%Z (logged_steps (emitted r))).
Proof.
  intros HE r.
  assert (HE1 : 1 <= Z.to_nat (train_epochs args)) by lia.
  destruct (run_train_post w train_loader args hc)
    as (_ & _ & _ & _ & Hcp).
  fold r in Hcp. split.
  - intros Hempty.
    assert (Hno : out r <> inr tt /\ checkpoints (emitted r) = []).
    { destruct Hcp as [(C1 & _ & C3) |
                       (pre & sd & od & tail & _ & _ & _ & _ & _ & Hne & _)].
      - now split.
      - destruct (Hne HE1) as [Hne0 _]. contradiction. }
    destruct Hno as [Hno1 Hno2]. split; [exact Hno1 |]. split; [exact Hno2 |].
    intros Hsetup.
    exact (@empty_first_epoch_post T _ Batch ModelState OptState w train_loader
             args hc [] init_locals HE Hempty eq_refl Hsetup).
  - intros Hck.
    destruct Hcp as [(C1 & _ & _) |
                     (pre & sd & od & tail & E & _ & _ & Hb & Hlog & Hne & _)];
      [contradiction |].
    destruct (Hne HE1) as [Hne0 HK].
    pose proof (batches_upto_pos train_loader HE1 Hne0) as Hpos.
    split; [exact Hne0 |]. split.
    + rewrite E, steps_begun_app, Hb. intros Hnil.
      apply app_eq_nil in Hnil as [Hnil _]. rewrite Hnil in Hpos.
      simpl in Hpos. lia.
    + rewrite E, logged_steps_app, Hlog. apply in_or_app. left.
      apply filter_In. split.
      * apply in_zseq. lia.
      * unfold divides. now rewrite Zmod_0_l.
Qed.

(** ** Concrete runs *)

Example quiet_run_completes :
  let r := run_train (demo_world false) demo_loader
                     (demo_args 2 2 0.5%float 12 3) true in
  out r = inr tt /\
  sched_epochs (emitted r) = [10; 11]%Z /\
  logged_steps (emitted r) = [0; 3; 6; 9; 12; 15; 18; 21]%Z /\
  n_iter (locals r) = 24%Z /\
  checkpoints (emitted r)
  = [({| ck_epoch := 12; ck_arch := "resnet18"; ck_state_dict := tt;
         ck_optimizer := tt |}, false, "checkpoint_0012.pth.tar"%string)] /\
  wandb_saves (emitted r) = ["checkpoint_0012.pth.tar"%string].
Proof. vm_compute. repeat split; reflexivity. Qed.

(** the scheduler is stepped once the last batch of epochs 10 and 11 has
    been stepped, right before the debug line of the epoch *)
Example scheduler_step_closes_the_epoch :
  let r := run_train (demo_world false) demo_loader
                     (demo_args 2 2 0.5%float 12 3) true in
  demo_loader 10 = [20; 21] /\ demo_loader 11 = [22; 23] /\
  skipn 57 (outline (emitted r))
  = [MStep 20; MUpdate; MStep 21; MUpdate; MLog [21%Z]; MSched 10; MDebug 10;
     MStep 22; MUpdate; MStep 23; MUpdate; MSched 11; MDebug 11].
Proof. vm_compute. repeat split; reflexivity. Qed.

(** the checkpoint holds the states as they are after the last step *)
Example checkpoint_holds_the_final_state :
  let r := run_train counting_world demo_loader
                     (demo_args 2 2 0.5%float 2 1) true in
  out r = inr tt /\
  checkpoints (emitted r)
  = [({| ck_epoch := 2; ck_arch := "resnet18"; ck_state_dict := 4;
         ck_optimizer := 4 |}, false, "checkpoint_0002.pth.tar"%string)].
Proof. vm_compute. split; reflexivity. Qed.

(** C6, as stated, fails: when [wandb.log] raises at the first step the
    run ends with that exception; the second batch of the epoch never
    enters a step and no checkpoint is written. *)
Lemma wandb_log_failure_is_not_swallowed :
  let r := run_train (demo_world true) demo_loader
                     (demo_args 2 2 0.5%float 1 1) true in
  demo_loader 0 = [0; 1] /\
  out r = inl (External 0) /\
  steps_begun (emitted r) = [0] /\
  last (emitted r) EWandbWatch = EWandbLog (demo_metrics 0) /\
  checkpoints (emitted r) = [].
Proof. vm_compute. repeat split; reflexivity. Qed.

Lemma wandb_log_failure_aborts_witness :
  let r := run_train (demo_world true) demo_loader
                     (demo_args 2 2 0.5%float 1 1) true in
  let pre := removelast (emitted r) in
  emitted r = pre ++ EWandbLog (demo_metrics 0) :: [] /\
  raises (demo_world true) pre (EWandbLog (demo_metrics 0)) = Some (External 0) /\
  out r = inl (External 0) /\
  @nil (event (T := float) nat unit unit) = [] /\
  checkpoints (emitted r) = [] /\
  wandb_saves (emitted r) = [].
Proof.
  intros r pre.
  assert (E : emitted r = pre ++ EWandbLog (demo_metrics 0) :: [])
    by (vm_compute; reflexivity).
  assert (Hr : raises (demo_world true) pre (EWandbLog (demo_metrics 0))
               = Some (External 0)) by reflexivity.
  split; [exact E |]. split; [exact Hr |].
  exact (wandb_log_failure_aborts (demo_world true) demo_loader
           (demo_args 2 2 0.5%float 1 1) true pre [] (demo_metrics 0) E Hr).
Defined.

Lemma metrics_every_k_steps_witness :
  let r := run_train (demo_world false) demo_loader
                     (demo_args 2 2 0.5%float 2 2) true in
  (1 <= 2)%Z /\
  cooperative (demo_world false) (demo_args 2 2 0.5%float 2 2) 2 2 /\
  Forall (fun m => map fst m = metric_keys) (wandb_logs (emitted r)) /\
  out r = inr tt /\
  outline (emitted r)
  = [MStep 0; MUpdate; MLog [0%Z]; MStep 1; MUpdate; MDebug 0;
     MStep 2; MUpdate; MLog [2%Z]; MStep 3; MUpdate; MDebug 1] /\
  n_iter (locals r) = 4%Z /\
  logged_steps (emitted r) = filter (divides 2) (zseq 0 4).
Proof.
  intros r.
  assert (HK : (1 <= log_every_n_steps (demo_args 2 2 0.5%float 2 2))%Z)
    by (simpl; lia).
  assert (Hco : cooperative (demo_world false) (demo_args 2 2 0.5%float 2 2) 2 2).
  { unfold cooperative. simpl.
    split; [intros h ev; destruct ev; reflexivity |].
    repeat split; try reflexivity; try lia; discriminate. }
  assert (Hfirst : (1 <= train_epochs (demo_args 2 2 0.5%float 2 2))%Z ->
                   demo_loader 0 <> []) by (intros _; discriminate).
  destruct (metrics_every_k_steps (demo_world false) demo_loader
              (demo_args 2 2 0.5%float 2 2) true HK)
    as (Hkeys & _ & Hfull & Hlive & _ & Hdone).
  pose proof (Hlive eq_refl 2 2 Hco Hfirst) as Ho.
  destruct (Hdone Ho) as (_ & Hn & Hlog & _).
  split; [lia |]. split; [exact Hco |]. split; [exact Hkeys |].
  split; [exact Ho |]. split; [exact (Hfull Ho) |].
  split; [exact Hn | exact Hlog].
Defined.

Example metrics_every_two_steps :
  let r := run_train (demo_world false) demo_loader
                     (demo_args 2 2 0.5%float 2 2) true in
  out r = inr tt /\ wandb_logs (emitted r) = [demo_metrics 0; demo_metrics 2].
Proof. vm_compute. split; reflexivity. Qed.

Lemma empty_first_epoch_never_checkpoints_witness :
  let r := run_train (demo_world false) (fun _ : nat => @nil nat)
                     (demo_args 2 2 0.5%float 1 1) true in
  (1 <= 1)%Z /\
  out r = inl (UnboundLocalError "loss") /\
  emitted r = setup_events (demo_args 2 2 0.5%float 1 1) /\
  checkpoints (emitted r) = [].
Proof.
  intros r.
  assert (HE : (1 <= train_epochs (demo_args 2 2 0.5%float 1 1))%Z)
    by (simpl; lia).
  destruct (empty_first_epoch_never_checkpoints (demo_world false)
              (fun _ : nat => @nil nat) (demo_args 2 2 0.5%float 1 1) true HE)
    as [Hempty _].
  destruct (Hempty eq_refl) as (_ & Hck & Hexact).
  destruct Hexact as [Ho Hev].
  { intros h ev Hin. simpl in Hin.
    repeat (destruct Hin as [<- | Hin]; [reflexivity |]). contradiction. }
  split; [lia |]. split; [exact Ho |]. split; [exact Hev | exact Hck].
Defined.

(** ** Pair construction: inputs that are refused *)

Lemma concat_repeat_nil {A} (k : nat) : concat (repeat (@nil A) k) = [].
Proof. induction k as [| k IH]; simpl; [reflexivity | exact IH]. Qed.

Lemma label_mask_nonpositive {T : Type} `{Scalar T} (args : Args T) :
  ((n_views args <= 0)%Z -> label_mask args = inl ValueError) /\
  ((1 <= n_views args)%Z -> (batch_size args <= 0)%Z ->
   label_mask args = inl RuntimeError).
Proof.
  unfold label_mask, tiled_ids, arange. split.
  - intros Hn.
    destruct (Z.leb_spec (n_views args) 0) as [_ | Hn']; [reflexivity | lia].
  - intros Hn Hb.
    destruct (Z.leb_spec (n_views args) 0) as [Hn' | _]; [lia |].
    destruct (Z.ltb_spec (batch_size args) 0) as [Hb' | Hb']; [reflexivity |].
    assert (Hb0 : batch_size args = 0%Z) by lia.
    rewrite Hb0. simpl rbind. change (Z.to_nat 0) with 0. simpl seq. simpl map.
    rewrite concat_repeat_nil. reflexivity.
Qed.

(** the diagonal mask has [n * b] rows, the similarity matrix as many as
    the features *)
Lemma info_nce_loss_row_count {T : Type} `{Scalar T}
        (features : Tensor2 T) (args : Args T) (b n : nat) :
  batch_size args = Z.of_nat b -> n_views args = Z.of_nat n ->
  1 <= b -> 1 <= n ->
  length features <> n * b ->
  info_nce_loss features args = inl IndexError.
Proof.
  intros Hb Hn Hb1 Hn1 Hlen. unfold info_nce_loss.
  rewrite (label_mask_tab args Hb Hn Hb1 Hn1). simpl rbind. cbv zeta.
  unfold masked at 1.
  destruct (list_eq_dec _ _ _) as [Hsh | _]; [| reflexivity].
  exfalso. apply Hlen.
  apply (f_equal (@length nat)) in Hsh.
  unfold shape2, matmul_T, tnot, eye in Hsh.
  rewrite !length_map, length_normalize, !length_seq in Hsh. exact Hsh.
Qed.

(** X1: for [n >= 1] views of [b >= 1] images, [info_nce_loss] accepts
    a feature tensor exactly when it has [n * b] rows: with [n * b] rows
    it returns, with any other number of rows it raises [IndexError],
    the diagonal mask not having the shape of the similarity matrix. *)
Theorem info_nce_accepts_exactly_nb_rows {T : Type} `{Scalar T}
        (features : Tensor2 T) (args : Args T) (b n : nat) :
  batch_size args = Z.of_nat b -> n_views args = Z.of_nat n ->
  1 <= b -> 1 <= n ->
  (is_ok (info_nce_loss features args) = true <-> length features = n * b) /\
  (length features <> n * b -> info_nce_loss features args = inl IndexError).
Proof.
  intros Hb Hn Hb1 Hn1. split; [split |].
  - intros Hok. destruct (Nat.eq_dec (length features) (n * b)) as [E | E];
      [exact E |].
    rewrite (info_nce_loss_row_count features args Hb Hn Hb1 Hn1 E) in Hok.
    discriminate.
  - intros Hlen.
    now rewrite (info_nce_loss_tab features args Hb Hn Hb1 Hn1 Hlen).
  - apply info_nce_loss_row_count; assumption.
Qed.

Lemma info_nce_accepts_exactly_nb_rows_witness :
  batch_size (demo_args 2 2 0.5%float 1 1) = Z.of_nat 2 /\
  length [[1; 0]; [0; 1]; [1; 1]]%float <> 2 * 2 /\
  info_nce_loss [[1; 0]; [0; 1]; [1; 1]]%float (demo_args 2 2 0.5%float 1 1)
  = inl IndexError /\
  is_ok (info_nce_loss demo_features (demo_args 2 2 0.5%float 1 1)) = true.
Proof.
  assert (Hlen : length [[1; 0]; [0; 1]; [1; 1]]%float <> 2 * 2)
    by (simpl; lia).
  assert (Hb1 : 1 <= 2) by lia.
  split; [reflexivity |]. split; [exact Hlen |]. split.
  - exact (proj2 (info_nce_accepts_exactly_nb_rows [[1; 0]; [0; 1]; [1; 1]]%float
                    (demo_args 2 2 0.5%float 1 1) (b := 2) (n := 2)
                    eq_refl eq_refl Hb1 Hb1) Hlen).
  - reflexivity.
Defined.

(** X2: with [n_views <= 0], [info_nce_loss] raises [ValueError]
    whatever the features and the batch size: there is nothing to
    concatenate.  With [n_views >= 1] and [batch_size <= 0] it raises
    [RuntimeError]: [torch.arange] refuses a negative bound, and the
    empty label matrix cannot be viewed with zero rows. *)
Theorem info_nce_nonpositive_sizes {T : Type} `{Scalar T}
        (features : Tensor2 T) (args : Args T) :
  ((n_views args <= 0)%Z -> info_nce_loss features args = inl ValueError) /\
  ((1 <= n_views args)%Z -> (batch_size args <= 0)%Z ->
   info_nce_loss features args = inl RuntimeError).
Proof.
  destruct (label_mask_nonpositive args) as [Hviews Hbatch].
  unfold info_nce_loss. split.
  - intros Hn. now rewrite (Hviews Hn).
  - intros Hn Hb. now rewrite (Hbatch Hn Hb).
Qed.

Lemma info_nce_nonpositive_sizes_witness :
  (n_views (demo_args 2 0 0.5%float 1 1) <= 0)%Z /\
  info_nce_loss demo_features (demo_args 2 0 0.5%float 1 1) = inl ValueError /\
  (1 <= n_views (demo_args 0 2 0.5%float 1 1))%Z /\
  (batch_size (demo_args 0 2 0.5%float 1 1) <= 0)%Z /\
  info_nce_loss demo_features (demo_args 0 2 0.5%float 1 1) = inl RuntimeError.
Proof.
  assert (Hn0 : (n_views (demo_args 2 0 0.5%float 1 1) <= 0)%Z) by (simpl; lia).
  assert (Hn1 : (1 <= n_views (demo_args 0 2 0.5%float 1 1))%Z) by (simpl; lia).
  assert (Hb0 : (batch_size (demo_args 0 2 0.5%float 1 1) <= 0)%Z)
    by (simpl; lia).
  split; [exact Hn0 |]. split.
  - exact (proj1 (info_nce_nonpositive_sizes demo_features
                    (demo_args 2 0 0.5%float 1 1)) Hn0).
  - split; [exact Hn1 |]. split; [exact Hb0 |].
    exact (proj2 (info_nce_nonpositive_sizes demo_features
                    (demo_args 0 2 0.5%float 1 1)) Hn1 Hb0).
Defined.

(** ** Checkpoint names *)

Lemma digits_value_zeros (k : nat) (s : string) :
  digits_value (String.append (string_of_list_ascii (repeat "0"%char k)) s)
  = digits_value s.
Proof.
  induction k as [| k IH]; [reflexivity |].
  unfold digits_value in *. cbn [repeat string_of_list_ascii String.append].
  cbn [NilEmpty.uint_of_string].
  destruct (NilEmpty.uint_of_string
              (String.append (string_of_list_ascii (repeat "0"%char k)) s))
    as [d |]; destruct (NilEmpty.uint_of_string s) as [d' |];
    cbn in *; try exact IH.
Qed.

Lemma digits_value_str_int (z : Z) : (0 <= z)%Z -> digits_value (str_int z) = z.
Proof.
  intros Hz. unfold str_int, digits_value.
  pose proof (DecimalZ.of_to z) as Hof.
  destruct z as [| p | p]; [reflexivity | | lia].
  cbn [Z.to_int NilZero.string_of_int] in *.
  assert (E : NilEmpty.uint_of_string (NilZero.string_of_uint (Pos.to_uint p))
              = Some (Pos.to_uint p) \/
              (Pos.to_uint p = Nil)).
  { destruct (Pos.to_uint p) eqn:Ep; [now right | ..]; left;
      cbn [NilZero.string_of_uint]; apply NilEmpty.usu. }
  destruct E as [-> | E]; [exact Hof |].
  rewrite E in *. cbn in Hof. discriminate.
Qed.

Lemma zero_pad_head (w : nat) (z : Z) :
  (0 <= z)%Z ->
  exists c s, zero_pad w (str_int z) = String c s /\ Ascii.eqb c "-" = false.
Proof.
  intros Hz. unfold zero_pad.
  destruct (w - String.length (str_int z)) as [| k].
  - cbn [repeat string_of_list_ascii String.append]. unfold str_int.
    destruct z as [| p | p]; [now exists "0"%char, EmptyString | | lia].
    cbn [Z.to_int NilZero.string_of_int].
    destruct (Pos.to_uint p) eqn:Ep; cbn;
      eexists; eexists; split; reflexivity.
  - cbn [repeat string_of_list_ascii String.append].
    eexists; eexists; split; reflexivity.
Qed.

(** what [format_04d] prints reads back as the number printed *)
Lemma parse_format_04d (z : Z) : parse_04d (format_04d z) = z.
Proof.
  unfold format_04d. destruct (Z.ltb_spec z 0) as [Hneg | Hpos].
  - cbn [String.append parse_04d]. cbn [Ascii.eqb Bool.eqb].
    unfold zero_pad. rewrite digits_value_zeros, digits_value_str_int; lia.
  - destruct (zero_pad_head 4 Hpos) as (c & s & E & Hc).
    unfold parse_04d. rewrite E, Hc, <- E.
    unfold zero_pad. rewrite digits_value_zeros. now apply digits_value_str_int.
Qed.

Lemma append_inv_tail (s x y : string) :
  String.append x s = String.append y s -> x = y.
Proof.
  intros E.
  assert (L : forall a b, String.length (String.append a b)
                          = String.length a + String.length b).
  { induction a as [| c a IH]; intros b; cbn; [reflexivity | now rewrite IH]. }
  revert y E. induction x as [| c x IH]; intros [| c' y] E; cbn in E.
  - reflexivity.
  - apply (f_equal String.length) in E. cbn in E. rewrite L in E. lia.
  - apply (f_equal String.length) in E. cbn in E. rewrite L in E. lia.
  - injection E as -> E. f_equal. now apply IH.
Qed.

(** X12: the checkpoint file name determines the epoch count it was made
    from: runs that differ in [train_epochs] never write to the same
    file, also beyond four digits and for negative counts. *)
Theorem checkpoint_names_differ (m n : Z) :
  m <> n -> checkpoint_name m <> checkpoint_name n.
Proof.
  intros Hmn E. apply Hmn. unfold checkpoint_name in E.
  cbn [String.append] in E. injection E as E.
  apply append_inv_tail in E.
  rewrite <- (parse_format_04d m), <- (parse_format_04d n). now rewrite E.
Qed.

Lemma checkpoint_names_differ_witness :
  (9999 <> 10000)%Z /\
  checkpoint_name 9999 = "checkpoint_9999.pth.tar"%string /\
  checkpoint_name 10000 = "checkpoint_10000.pth.tar"%string /\
  checkpoint_name 9999 <> checkpoint_name 10000.
Proof.
  assert (Hne : (9999 <> 10000)%Z) by lia.
  split; [exact Hne |]. split; [reflexivity |]. split; [reflexivity |].
  exact (checkpoint_names_differ Hne).
Defined.

(** ** The driver: runs that cannot complete, runs that must *)

(** X6: [train_simclr] catches nothing.  Whichever call raises, the run
    ends with that exception and that call is the last one made. *)
Theorem collaborator_failure_aborts {T : Type} `{Scalar T}
        (Batch ModelState OptState : Type)
        (w : World (T := T) Batch ModelState OptState)
        (train_loader : nat -> list Batch) (args : Args T) (hc : bool)
        (pre post : list (event (T := T) Batch ModelState OptState))
        (ev : event (T := T) Batch ModelState OptState) (e : exn) :
  emitted (run_train w train_loader args hc) = pre ++ ev :: post ->
  raises w pre ev = Some e ->
  out (run_train w train_loader args hc) = inl e /\ post = [].
Proof.
  intros E Hr.
  exact (@propagates_train_simclr T _ Batch ModelState OptState w
           train_loader args hc [] init_locals pre ev post e E Hr).
Qed.

Lemma collaborator_failure_aborts_witness :
  let args := demo_args 2 2 0.5%float 1 1 in
  let r := run_train demo_world_save_fails demo_loader args true in
  let pre := removelast (emitted r) in
  emitted r = pre ++ final_checkpoint args tt tt :: [] /\
  raises demo_world_save_fails pre (final_checkpoint args tt tt)
  = Some (External 1) /\
  out r = inl (External 1) /\
  @nil (event (T := float) nat unit unit) = [].
Proof.
  intros args r pre.
  assert (E : emitted r = pre ++ final_checkpoint args tt tt :: [])
    by (vm_compute; reflexivity).
  assert (Hr : raises demo_world_save_fails pre (final_checkpoint args tt tt)
               = Some (External 1)) by reflexivity.
  split; [exact E |]. split; [exact Hr |].
  exact (collaborator_failure_aborts demo_world_save_fails demo_loader
           args true pre [] (final_checkpoint args tt tt) E Hr).
Defined.

(** X7: with [criterion] left at its default [None] and at least one
    epoch to run, no run completes: the step counter stays at 0, the
    optimizer is never stepped, and no checkpoint is written or
    uploaded. *)
Theorem missing_criterion_never_trains {T : Type} `{Scalar T}
        (Batch ModelState OptState : Type)
        (w : World (T := T) Batch ModelState OptState)
        (train_loader : nat -> list Batch) (args : Args T) :
  (1 <= train_epochs args)%Z ->
  let r := run_train w train_loader args false in
  out r <> inr tt /\
  n_iter (locals r) = 0%Z /\
  ~ In EScalerStep (emitted r) /\
  checkpoints (emitted r) = [] /\
  wandb_saves (emitted r) = [].
Proof.
  intros HE r.
  destruct (@train_simclr_without_criterion T _ Batch ModelState OptState w
              train_loader args [] init_locals eq_refl HE) as (Ho & Hck & Hsv).
  destruct (@train_simclr_never_updates T _ Batch ModelState OptState w
              train_loader args [] init_locals eq_refl eq_refl) as (Hn & Hst).
  repeat split; assumption.
Qed.

Lemma missing_criterion_never_trains_witness :
  let r := run_train (demo_world false) demo_loader
                     (demo_args 2 2 0.5%float 3 1) false in
  (1 <= 3)%Z /\
  out r <> inr tt /\
  n_iter (locals r) = 0%Z /\
  ~ In EScalerStep (emitted r) /\
  checkpoints (emitted r) = [] /\
  wandb_saves (emitted r) = [].
Proof.
  intros r.
  assert (HE : (1 <= train_epochs (demo_args 2 2 0.5%float 3 1))%Z)
    by (simpl; lia).
  split; [lia |].
  exact (missing_criterion_never_trains (demo_world false) demo_loader
           (demo_args 2 2 0.5%float 3 1) HE).
Defined.

(** X8: with [log_every_n_steps = 0] and at least one epoch to run, no
    run completes ([n_iter % 0] raises at the first step, an empty first
    epoch fails at its debug line): no metric is ever logged and no
    checkpoint is written or uploaded. *)
Theorem zero_log_interval_never_completes {T : Type} `{Scalar T}
        (Batch ModelState OptState : Type)
        (w : World (T := T) Batch ModelState OptState)
        (train_loader : nat -> list Batch) (args : Args T) (hc : bool) :
  log_every_n_steps args = 0%Z ->
  (1 <= train_epochs args)%Z ->
  let r := run_train w train_loader args hc in
  out r <> inr tt /\
  wandb_logs (emitted r) = [] /\
  checkpoints (emitted r) = [] /\
  wandb_saves (emitted r) = [].
Proof.
  intros HK HE r.
  assert (HE1 : 1 <= Z.to_nat (train_epochs args)) by lia.
  pose proof (@train_simclr_zero_interval T _ Batch ModelState OptState w
                train_loader args hc [] init_locals HK) as Hlogs.
  destruct (run_train_post w train_loader args hc) as (_ & _ & _ & _ & Hcp).
  destruct Hcp as [(C1 & C2 & C3) |
                   (pre & sd & od & tail & _ & _ & _ & _ & _ & Hne & _)].
  - repeat split; assumption.
  - destruct (Hne HE1) as [_ HK']. contradiction.
Qed.

Lemma zero_log_interval_never_completes_witness :
  let r := run_train (demo_world false) demo_loader
                     (demo_args 2 2 0.5%float 2 0) true in
  log_every_n_steps (demo_args 2 2 0.5%float 2 0) = 0%Z /\
  out r <> inr tt /\
  wandb_logs (emitted r) = [] /\
  checkpoints (emitted r) = [] /\
  wandb_saves (emitted r) = [].
Proof.
  intros r.
  assert (HE : (1 <= train_epochs (demo_args 2 2 0.5%float 2 0))%Z)
    by (simpl; lia).
  split; [reflexivity |].
  exact (zero_log_interval_never_completes (demo_world false) demo_loader
           (demo_args 2 2 0.5%float 2 0) true eq_refl HE).
Defined.

(** X9: a batch for which the model does not return [n_views *
    batch_size] rows (a last, shorter batch of a loader that does not
    drop it) makes the step raise [IndexError] right after the forward
    pass: the criterion and the optimizer are not called and no local
    is bound. *)
Theorem short_batch_aborts_step {T : Type} `{Scalar T}
        (Batch ModelState OptState : Type)
        (w : World (T := T) Batch ModelState OptState)
        (args : Args T) (hc : bool) (batch : Batch) (b n : nat)
        (h : list (event (T := T) Batch ModelState OptState))
        (l : Locals (T := T)) :
  batch_size args = Z.of_nat b -> n_views args = Z.of_nat n ->
  1 <= b -> 1 <= n ->
  raises w h (EConcatViews batch) = None ->
  raises w (h ++ [EConcatViews batch]) (EModel batch) = None ->
  length (model_out w (h ++ [EConcatViews batch]) batch) <> n * b ->
  let r := train_step w args hc batch h l in
  out r = inl IndexError /\
  locals r = l /\
  emitted r = [EConcatViews batch; EModel batch].
Proof.
  intros Hb Hn Hb1 Hn1 Hr1 Hr2 Hlen r.
  pose proof (info_nce_loss_row_count _ args Hb Hn Hb1 Hn1 Hlen) as Hloss.
  exact (@train_step_refused_features T _ Batch ModelState OptState w args hc
           batch h l IndexError Hloss Hr1 Hr2).
Qed.

Lemma short_batch_aborts_step_witness :
  let args := demo_args 3 2 0.5%float 1 1 in
  let r := train_step (demo_world false) args true 0 [] init_locals in
  length (model_out (demo_world false) [EConcatViews 0] 0) <> 2 * 3 /\
  out r = inl IndexError /\
  locals r = init_locals /\
  emitted r = [EConcatViews 0; EModel 0].
Proof.
  intros args r.
  assert (Hlen : length (model_out (demo_world false) ([] ++ [EConcatViews 0]) 0)
                 <> 2 * 3) by (simpl; lia).
  split; [exact Hlen |].
  exact (short_batch_aborts_step (demo_world false) args true 0 (b := 3) (n := 2)
           [] init_locals eq_refl eq_refl ltac:(lia) ltac:(lia)
           eq_refl eq_refl Hlen).
Defined.

(** X10: with [train_epochs <= 0] and collaborators that do not raise,
    the run completes without a single step, and still writes and
    uploads a checkpoint, named after [train_epochs]. *)
Theorem no_epoch_still_checkpoints {T : Type} `{Scalar T}
        (Batch ModelState OptState : Type)
        (w : World (T := T) Batch ModelState OptState)
        (train_loader : nat -> list Batch) (args : Args T) (hc : bool) :
  (train_epochs args <= 0)%Z ->
  (forall h ev, raises w h ev = None) ->
  let r := run_train w train_loader args hc in
  out r = inr tt /\
  n_iter (locals r) = 0%Z /\
  steps_begun (emitted r) = [] /\
  wandb_logs (emitted r) = [] /\
  (exists sd od,
      checkpoints (emitted r)
      = [({| ck_epoch := train_epochs args; ck_arch := arch args;
             ck_state_dict := sd; ck_optimizer := od |},
          false, checkpoint_name (train_epochs args))]) /\
  wandb_saves (emitted r) = [checkpoint_name (train_epochs args)].
Proof.
  intros HE Hquiet r. subst r. unfold run_train.
  destruct (@train_simclr_zero_epochs T _ Batch ModelState OptState w
              train_loader args hc [] init_locals HE Hquiet)
    as (Ho & Hn & sd & od & Hev).
  rewrite Hev.
  split; [exact Ho |]. split; [exact Hn |].
  split; [reflexivity |]. split; [reflexivity |].
  split; [exists sd, od; reflexivity | reflexivity].
Qed.

Lemma no_epoch_still_checkpoints_witness :
  let r := run_train (demo_world false) demo_loader
                     (demo_args 2 2 0.5%float 0 1) true in
  (0 <= 0)%Z /\
  out r = inr tt /\
  steps_begun (emitted r) = [] /\
  wandb_saves (emitted r) = ["checkpoint_0000.pth.tar"%string].
Proof.
  intros r.
  assert (HE : (train_epochs (demo_args 2 2 0.5%float 0 1) <= 0)%Z)
    by (simpl; lia).
  assert (Hquiet : forall h ev, raises (demo_world false) h ev = None)
    by (intros h ev; destruct ev; reflexivity).
  destruct (no_epoch_still_checkpoints (demo_world false) demo_loader
              (demo_args 2 2 0.5%float 0 1) true HE Hquiet)
    as (Ho & _ & Hst & _ & _ & Hsv).
  split; [lia |]. split; [exact Ho |]. split; [exact Hst | exact Hsv].
Defined.

(** X11: when no collaborator raises, the model returns [n_views *
    batch_size] rows for every batch, [accuracy] and [get_lr] return
    non-empty results, [log_every_n_steps] is not 0 and the first epoch
    has a batch (later epochs may be empty), the run completes: every
    batch of every epoch entered a step, the counter ends at their
    number, and one checkpoint is written and then uploaded. *)
Theorem cooperative_run_completes {T : Type} `{Scalar T}
        (Batch ModelState OptState : Type)
        (w : World (T := T) Batch ModelState OptState)
        (train_loader : nat -> list Batch) (args : Args T) (b n : nat) :
  cooperative w args b n ->
  log_every_n_steps args <> 0%Z ->
  ((1 <= train_epochs args)%Z -> train_loader 0 <> []) ->
  let r := run_train w train_loader args true in
  let all := batches_upto train_loader (Z.to_nat (train_epochs args)) in
  out r = inr tt /\
  steps_begun (emitted r) = all /\
  n_iter (locals r) = Z.of_nat (length all) /\
  length (checkpoints (emitted r)) = 1 /\
  wandb_saves (emitted r) = [checkpoint_name (train_epochs args)].
Proof.
  intros Hco HK Hfirst r all.
  assert (Ho : out r = inr tt)
    by exact (@train_simclr_completes T _ Batch ModelState OptState w
                train_loader args b n [] init_locals Hco HK Hfirst).
  destruct (run_train_post w train_loader args true) as (_ & _ & _ & Hn & Hcp).
  fold r in Hn, Hcp.
  destruct Hcp as [(_ & _ & C3) |
                   (pre & sd & od & tail & E & Hck & Hsv & Hb & _ & _ & Ht)];
    [contradiction |].
  assert (Htail : tail = [ELoggingInfo saved_msg;
                          EWandbSave (checkpoint_name (train_epochs args))]).
  { destruct Ht as [(_ & Hno & _) | (_ & [(_ & Hno) | (Ht & _)])];
      [contradiction | contradiction | exact Ht]. }
  subst tail.
  split; [exact Ho |]. split; [| split; [exact (Hn Ho) |]].
  - rewrite E, steps_begun_app, Hb. simpl. apply app_nil_r.
  - rewrite E. unfold checkpoints, wandb_saves in *.
    rewrite !flat_map_app, Hck, Hsv. split; reflexivity.
Qed.

Lemma cooperative_run_completes_witness :
  let r := run_train (demo_world false) demo_loader
                     (demo_args 2 2 0.5%float 2 3) true in
  cooperative (demo_world false) (demo_args 2 2 0.5%float 2 3) 2 2 /\
  out r = inr tt /\
  steps_begun (emitted r) = [0; 1; 2; 3] /\
  n_iter (locals r) = 4%Z.
Proof.
  intros r.
  assert (Hco : cooperative (demo_world false) (demo_args 2 2 0.5%float 2 3) 2 2).
  { unfold cooperative. simpl.
    split; [intros h ev; destruct ev; reflexivity |].
    repeat split; try reflexivity; try lia; discriminate. }
  assert (HK : log_every_n_steps (demo_args 2 2 0.5%float 2 3) <> 0%Z)
    by (simpl; lia).
  assert (Hfirst : (1 <= train_epochs (demo_args 2 2 0.5%float 2 3))%Z ->
                   demo_loader 0 <> []) by (intros _; discriminate).
  destruct (cooperative_run_completes demo_loader Hco HK Hfirst)
    as (Ho & Hst & Hn & _).
  split; [exact Hco |]. split; [exact Ho |]. split; [exact Hst | exact Hn].
Defined.

(** ** Pair construction: what rescaling the features can change *)

Lemma logits_row_length {T : Type} `{Scalar T}
      (features : Tensor2 T) (tau : T) (b m i : nat) :
  length (logits_row features tau b m i)
  = length (positive_cols b m i) + length (negative_cols b m i).
Proof. unfold logits_row. now rewrite length_map, length_app, !length_map. Qed.



(** On binary64 the logits do change with the scale of ordinary rows:
    the norm and the division are rounded. *)
Example rescaling_changes_float_logits :
  let features := [[1; 2; 3]; [4; 5; 6]]%float in
  let args := demo_args 1 2 1%float 1 1 in
  match info_nce_loss features args,
        info_nce_loss (scale 3%float features) args with
  | inr (logits, labels), inr (logits', labels') =>
      labels' = labels /\
      PrimFloat.ltb (nth 0 (nth 0 logits []) 0%float)
                    (nth 0 (nth 0 logits' []) 0%float) = true
  | _, _ => False
  end.
Proof. vm_compute. split; reflexivity. Qed.

(** ** Binary64: a division can merge two logits *)


(** On these binary64 entries and finite temperatures, neighbours,
    zeros, infinities and the smallest positive float among them, no
    division reverses the order of two entries.  (An infinite
    temperature is left out: it turns an infinite entry into NaN.) *)
Example float_division_keeps_order_on_samples :
  let entries := [neg_infinity; -2; -0.875; next_up (-0.875); -0; 0;
                  next_up 0; 0.5; 0.875; next_up 0.875; 1; next_up 1; 3;
                  infinity]%float in
  let temperatures := [next_up 0; 0.5; 1.5; 3]%float in
  forallb (fun tau =>
    forallb (fun x =>
      forallb (fun y =>
        implb (PrimFloat.leb x y)
              (PrimFloat.leb (PrimFloat.div x tau) (PrimFloat.div y tau)))
        entries) entries) temperatures = true.
Proof. vm_compute. reflexivity. Qed.

(** ** Exact and rounded arithmetic: temperature and rescaling *)

Open Scope R_scope.

Lemma nth_div_scalar (logits : Tensor2 R) (tau : R) (r : nat) :
  nth r (div_scalar logits tau) [] = map (fun x => x / tau) (nth r logits []).
Proof.
  unfold div_scalar.
  change (@nil R) with (map (fun x : R => s_div x tau) []) at 1.
  now rewrite map_nth.
Qed.

Lemma div_le_iff (tau x y : R) : 0 < tau -> (x <= y <-> x / tau <= y / tau).
Proof.
  intros Htau. pose proof (Rinv_0_lt_compat tau Htau) as Hinv.
  unfold Rdiv. split; intros Hle.
  - apply Rmult_le_compat_r; [lra | assumption].
  - now apply Rmult_le_reg_r with (/ tau).
Qed.

Lemma nth_rounded (rnd : R -> R) (t : Tensor2 R) (r : nat) :
  nth r (rounded rnd t) [] = map rnd (nth r t []).
Proof.
  unfold rounded. change (@nil R) with (map rnd []) at 1. now rewrite map_nth.
Qed.

Lemma nth_rounded_quotient (rnd : R -> R) (row : list R) (tau : R) (k : nat) :
  (k < length row)%nat ->
  nth k (map rnd (map (fun x => x / tau) row)) 0 = rnd (nth k row 0 / tau).
Proof.
  intros Hk. rewrite map_map.
  rewrite (nth_indep _ 0 (rnd (0 / tau))) by now rewrite length_map.
  now rewrite (map_nth (fun x => rnd (x / tau))).
Qed.

Lemma round_down_monotone : monotone round_down.
Proof.
  intros x y Hxy. unfold round_down. apply IZR_le.
  destruct (base_Int_part x) as [Hx _]. destruct (base_Int_part y) as [_ Hy].
  assert (Hlt : IZR (Int_part x) < IZR (Int_part y + 1)).
  { rewrite plus_IZR. lra. }
  apply lt_IZR in Hlt. lia.
Qed.



Lemma inv_le_1 (x : R) : 1 <= x -> / x <= 1.
Proof.
  intros Hx. assert (Hinv : / x <= / 1) by (apply Rinv_le_contravar; lra).
  now rewrite Rinv_1 in Hinv.
Qed.


(** ** Exact arithmetic: partner views *)

Lemma fold_left_plus_shift {A} (f : A -> R) (l : list A) (acc : R) :
  fold_left (fun a x => a + f x) l acc
  = acc + fold_left (fun a x => a + f x) l 0.
Proof.
  revert acc. induction l as [| x l IH]; intros acc; simpl; [ring |].
  rewrite (IH (acc + f x)), (IH (0 + f x)). ring.
Qed.

Lemma dot_cons (x y : R) (u v : list R) :
  dot (x :: u) (y :: v) = x * y + dot u v.
Proof.
  unfold dot. simpl.
  rewrite (fold_left_plus_shift (fun p => fst p * snd p)). ring.
Qed.

Lemma dot_comm (u v : list R) : dot u v = dot v u.
Proof.
  revert v. induction u as [| x u IH]; intros [| y v]; try reflexivity.
  rewrite !dot_cons, IH. ring.
Qed.

Lemma sim_sym (features : Tensor2 R) (i j : nat) :
  sim features i j = sim features j i.
Proof. unfold sim. apply dot_comm. Qed.

Lemma partner_facts (b i : nat) :
  (1 <= b)%nat -> (i < 2 * b)%nat ->
  (partner b i < 2 * b)%nat /\ partner b i <> i /\ partner b (partner b i) = i /\
  same_source b i (partner b i) = true.
Proof.
  intros Hb Hi. unfold partner, same_source.
  destruct (Nat.ltb_spec i b) as [Hlt | Hge].
  - destruct (Nat.ltb_spec (i + b) b); [lia |].
    repeat split; try lia.
    apply Nat.eqb_eq. replace (i + b)%nat with (i + 1 * b)%nat by lia.
    apply Nat.Div0.mod_add.
  - destruct (Nat.ltb_spec (i - b) b); [| lia].
    repeat split; try lia.
    apply Nat.eqb_eq. replace i with (i - b + 1 * b)%nat at 2 by lia.
    symmetry. apply Nat.Div0.mod_add.
Qed.

Lemma positive_cols_two_views (b i : nat) :
  (1 <= b)%nat -> (i < 2 * b)%nat ->
  positive_cols b (2 * b) i = [partner b i].
Proof.
  intros Hb Hi.
  destruct (partner_facts Hb Hi) as (Hp & Hne & _ & Hsame).
  assert (Hin : In (partner b i) (positive_cols b (2 * b) i)).
  { unfold positive_cols, off_diag. apply filter_In. split; [| exact Hsame].
    apply filter_In. split; [apply in_seq; lia |].
    destruct (Nat.eqb_spec i (partner b i)); [congruence | reflexivity]. }
  pose proof (@positive_cols_length b 2 i Hb Hi) as Hlen.
  destruct (positive_cols b (2 * b) i) as [| x [| y l]]; try discriminate.
  destruct Hin as [-> | []]. reflexivity.
Qed.

(** X5: with two views of [b >= 1] images, a feature tensor of [2 * b]
    rows and a temperature that is not 0, the leading logit of row [i]
    is its similarity with row [partner b i], the other view of the same
    image, divided by the temperature; in exact arithmetic the two
    partners have the same leading logit. *)
Theorem two_views_share_their_positive (features : Tensor2 R) (args : Args R)
        (b i : nat) :
  batch_size args = Z.of_nat b -> n_views args = 2%Z ->
  (1 <= b)%nat ->
  length features = (2 * b)%nat ->
  (i < 2 * b)%nat ->
  temperature args <> 0 ->
  exists logits labels,
    info_nce_loss features args = inr (logits, labels) /\
    nth 0 (nth i logits []) 0
    = sim features i (partner b i) / temperature args /\
    nth 0 (nth (partner b i) logits []) 0 = nth 0 (nth i logits []) 0.
Proof.
  intros Hb Hn Hb1 Hlen Hi _.
  destruct (partner_facts Hb1 Hi) as (Hp & _ & Hpp & _).
  do 2 eexists.
  split; [apply (info_nce_loss_tab features args (b := b) (n := 2) Hb Hn); lia |].
  rewrite !nth_map_seq by assumption. unfold logits_row.
  rewrite !positive_cols_two_views by assumption. rewrite Hpp. simpl.
  split; [reflexivity |]. now rewrite sim_sym.
Qed.

Lemma two_views_share_their_positive_witness :
  (0 < 2 * 1)%nat /\
  exists logits labels,
    info_nce_loss [[1; 0]; [1; 1]] (demo_real_args 1 2 1) = inr (logits, labels) /\
    nth 0 (nth 0 logits []) 0
    = sim [[1; 0]; [1; 1]] 0 (partner 1 0) / temperature (demo_real_args 1 2 1) /\
    nth 0 (nth (partner 1 0) logits []) 0 = nth 0 (nth 0 logits []) 0.
Proof.
  assert (Hi : (0 < 2 * 1)%nat) by lia.
  split; [exact Hi |].
  apply (two_views_share_their_positive [[1; 0]; [1; 1]] (demo_real_args 1 2 1)
           (b := 1) (i := 0)).
  - reflexivity.
  - reflexivity.
  - lia.
  - reflexivity.
  - exact Hi.
  - simpl. lra.
Defined.
